(** * Balanced dice: a shallow embedding of [balanced-dice.py] and
      [balanced_dice_gui.py]

    The two scripts share the same simulation core (the distribution
    table, the two rollers, the shuffled work queue and the simulation
    loop); the windowed variant adds the frequency aggregator and the
    overlay bookkeeping of [BalancedDiceGUI].

    Python values are modelled as follows.
    - [int] is [Z].
    - A [list] object lives in a store ([heap]) and is named by its index
      ([loc]); [queue.pop()], [queue.extend(..)] and [random.shuffle(queue)]
      update the store in place, so a caller holding the same reference
      sees the change.  Lists that never escape the function that builds
      them ([results], the local [args]) are plain Rocq lists.
    - A [dict] whose iteration order matters ([EXPECTED_DIST_2_12],
      [displayed_frequencies]) is an association list; the frequency
      dictionary is a [gmap Z Z].
    - An exception is a value of [PyError] returned on the left.
    - The [random] module is an interface, [RandomSource], with the two
      functions the program calls and their documented contracts. *)

From Stdlib Require Import ZArith Lia.
From Stdlib Require Import Ascii String DecimalString.
From stdpp Require Import base option list sorting gmap strings.

Local Open Scope Z_scope.

(** ** The [random] module *)

(** [randint a b g] is [random.randint(a, b)]: an integer [N] with
    [a <= N <= b].  [shuffle x g] is [random.shuffle(x)]: the items of [x]
    in some other order.  [g] is the generator's state. *)
Class RandomSource (R : Type) := {
  randint : Z → Z → R → Z * R;
  shuffle : list Z → R → list Z * R;
  randint_range : ∀ a b g, a ≤ b → a ≤ (randint a b g).1 ≤ b;
  shuffle_perm : ∀ x g, (shuffle x g).1 ≡ₚ x
}.

(** ** Python list primitives on values *)

(** [x.pop()] on the value of a list: the last item and the rest, or
    nothing for the empty list (where Python raises [IndexError]). *)
Definition py_pop (x : list Z) : option (Z * list Z) :=
  match last x with
  | Some v => Some (v, removelast x)
  | None => None
  end.

(** [[number] * count]: a non-positive [count] gives the empty list. *)
Definition py_repeat (number count : Z) : list Z :=
  replicate (Z.to_nat count) number.

(** [range(n)]: empty for [n <= 0]. *)
Definition py_range (n : Z) : list Z :=
  Z.of_nat <$> seq 0 (Z.to_nat n).

(** [range(a, b)] *)
Definition py_range2 (a b : Z) : list Z :=
  (λ i, a + Z.of_nat i) <$> seq 0 (Z.to_nat (b - a)).

(** [str(n)] for an integer. *)
Definition py_str (n : Z) : string :=
  NilZero.string_of_int (Z.to_int n).

(** The one-character string of a line feed. *)
Definition newline : string := String "010"%char EmptyString.

(** [x.count(v)] *)
Definition py_count (v : Z) (x : list Z) : Z :=
  Z.of_nat (length (filter (λ y, y = v) x)).

(** ** Store, exceptions and the computation monad *)

Definition loc := nat.

Inductive PyError :=
  | IndexError    (* pop from empty list *)
  | TypeError     (* wrong number of arguments, or a non-tuple unpacked *)
  | Dangling.     (* a reference outside the store; no Python program builds one *)

Record World (R : Type) := mkWorld {
  rng : R;
  heap : list (list Z)
}.
Arguments mkWorld {R} _ _.
Arguments rng {R} _.
Arguments heap {R} _.

(** A computation over a state [S] either raises or returns a value and
    the next state. *)
Definition M (S A : Type) : Type := S → PyError + A * S.

Definition ret {S A} (a : A) : M S A := λ s, inr (a, s).
Definition raise {S A} (e : PyError) : M S A := λ _, inl e.
Definition bind {S A B} (m : M S A) (k : A → M S B) : M S B :=
  λ s, match m s with
       | inr (a, s') => k a s'
       | inl e => inl e
       end.

Declare Scope py_scope.
Delimit Scope py_scope with py.
Bind Scope py_scope with M.
Notation "x ← y ; z" := (bind y (λ x, z))
  (at level 20, y at level 100, z at level 200, only parsing) : py_scope.
Notation "' x ← y ; z" := (bind y (λ x, z))
  (at level 20, x pattern, y at level 100, z at level 200, only parsing) : py_scope.
Notation "x ;; z" := (bind x (λ _, z))
  (at level 100, z at level 200, only parsing, right associativity) : py_scope.
Local Open Scope py_scope.

(** [for x in xs: s = body(x, s)] *)
Fixpoint for_in {S A T} (xs : list A) (body : A → T → M S T) (t : T) : M S T :=
  match xs with
  | [] => ret t
  | x :: xs' => t' ← body x t; for_in xs' body t'
  end.

(** [if c: body] with no [else]. *)
Definition when {S} (c : bool) (body : M S ()) : M S () :=
  if c then body else ret ().

(** ** Constants *)

(** The dictionary literal, as its items in insertion order. *)
Definition EXPECTED_DIST_2_12 : list (Z * Z) :=
  [(2, 1); (3, 2); (4, 3); (5, 4); (6, 5); (7, 6);
   (8, 5); (9, 4); (10, 3); (11, 2); (12, 1)].

Section Core.
Context {R : Type} `{RandomSource R}.

Abbreviation W := (World R).

(** *** List objects in the store *)

(** [[]]: a new list object. *)
Definition list_new : M W loc :=
  λ w, inr (length (heap w), mkWorld (rng w) (heap w ++ [[]])).

Definition list_read (x : loc) : M W (list Z) :=
  λ w, match heap w !! x with
       | Some v => inr (v, w)
       | None => inl Dangling
       end.

Definition list_write (x : loc) (v : list Z) : M W () :=
  λ w, match heap w !! x with
       | Some _ => inr ((), mkWorld (rng w) (<[x := v]> (heap w)))
       | None => inl Dangling
       end.

(** [x.extend(items)] *)
Definition list_extend (x : loc) (items : list Z) : M W () :=
  v ← list_read x; list_write x (v ++ items).

(** [x.pop()] *)
Definition list_pop (x : loc) : M W Z :=
  v ← list_read x;
  match py_pop v with
  | Some (last, rest) => list_write x rest;; ret last
  | None => raise IndexError
  end.

(** [x == []] *)
Definition list_is_empty (x : loc) : M W bool :=
  v ← list_read x; ret (bool_decide (v = [])).

(** *** The [random] module on the store *)

Definition random_randint (a b : Z) : M W Z :=
  λ w, let '(v, g) := randint a b (rng w) in inr (v, mkWorld g (heap w)).

(** [random.shuffle(x)] shuffles the list object in place. *)
Definition random_shuffle (x : loc) : M W () :=
  λ w, match heap w !! x with
       | Some v =>
           let '(v', g) := shuffle v (rng w) in
           inr ((), mkWorld g (<[x := v']> (heap w)))
       | None => inl Dangling
       end.

(** *** Functions of [balanced-dice.py] *)

Definition roll_standard_dice : M W Z :=
  a ← random_randint 1 6;
  b ← random_randint 1 6;
  ret (a + b).

Definition create_balanced_queue (dist : list (Z * Z)) : M W loc :=
  queue ← list_new;
  for_in dist (λ '(number, count) (_ : ()),
                 list_extend queue (py_repeat number count)) ();;
  random_shuffle queue;;
  ret queue.

Definition roll_balanced_dice (queue : loc) : M W (Z * loc) :=
  empty ← list_is_empty queue;
  queue ← (if empty then create_balanced_queue EXPECTED_DIST_2_12
           else ret queue);
  roll ← list_pop queue;
  ret (roll, queue).

(** A roll function is called either as [roll_function()] and returns a
    number, or as [roll_function( *args )] and returns a pair of the roll
    and the queue. *)
Inductive RollFunction :=
  | Nullary (f : M W Z)
  | Unary (f : loc → M W (Z * loc)).

(** [roll, args[0] = roll_function( *args )] for a non-empty [args]: the
    call fails unless the function takes exactly these arguments and
    returns a pair. *)
Definition call_with_args (roll_function : RollFunction) (args : list loc)
  : M W (Z * list loc) :=
  match roll_function, args with
  | Unary f, [a] => '(roll, a') ← f a; ret (roll, <[0%nat := a']> args)
  | _, _ => raise TypeError
  end.

(** [roll = roll_function()] *)
Definition call_no_args (roll_function : RollFunction) : M W Z :=
  match roll_function with
  | Nullary f => f
  | Unary _ => raise TypeError
  end.

(** The body of the loop of [simulate_rolls], on the local variables
    [results] and [args]. *)
Definition simulate_step (roll_function : RollFunction)
    (locals : list Z * list loc) : M W (list Z * list loc) :=
  let '(results, args) := locals in
  if bool_decide (args ≠ []) then
    '(roll, args) ← call_with_args roll_function args;
    ret (results ++ [roll], args)
  else
    roll ← call_no_args roll_function;
    ret (results ++ [roll], args).

(** The loop of [simulate_rolls], with the final value of the local
    [args] next to [results]. *)
Definition simulate_loop (roll_function : RollFunction) (num_rolls : Z)
    (args : list loc) : M W (list Z * list loc) :=
  for_in (py_range num_rolls) (λ _, simulate_step roll_function) ([], args).

Definition simulate_rolls (roll_function : RollFunction) (num_rolls : Z)
    (args : list loc) : M W (list Z) :=
  '(results, _) ← simulate_loop roll_function num_rolls args;
  ret results.

(** *** The window of [balanced_dice_gui.py]

    The widgets are modelled by what the program reads from and writes to
    them.  [entry_rolls] holds what [int(self.entry_rolls.get())] gives
    for the entry's text, [None] when it raises [ValueError].  [canvas] is
    the picture the last [canvas.draw()] rendered.  [dialogs] is the list
    of message boxes shown so far.  [plotted_dice] is absent until the
    first assignment ([hasattr] tells). *)

Inductive TkState := NORMAL | DISABLED.

Record TextWidget := mkText {
  text_state : TkState;
  text_content : string
}.

(** One call of [ax.bar]: the legend label and, per position, the height. *)
Record BarContainer := mkBars {
  bar_label : string;
  bar_heights : list (Z * Z)
}.

Record Axes := mkAxes {
  bars : list BarContainer;
  xlabel : string;
  ylabel : string;
  title : string;
  legend : option string
}.

Inductive DialogKind := ShowError | ShowInfo.

Record Dialog := mkDialog {
  dialog_kind : DialogKind;
  dialog_title : string;
  dialog_message : string
}.

Record BalancedDiceGUI := mkGUI {
  overlay_active : bool;
  entry_rolls : option Z;
  dice_choice : string;
  overlay_choice : bool;
  ax : Axes;
  canvas : Axes;
  text_freq : TextWidget;
  plotted_dice : option (gset string);
  dialogs : list Dialog
}.

Definition set_overlay_active (b : bool) (g : BalancedDiceGUI) :=
  mkGUI b (entry_rolls g) (dice_choice g) (overlay_choice g) (ax g)
        (canvas g) (text_freq g) (plotted_dice g) (dialogs g).
Definition set_entry_rolls (n : option Z) (g : BalancedDiceGUI) :=
  mkGUI (overlay_active g) n (dice_choice g) (overlay_choice g) (ax g)
        (canvas g) (text_freq g) (plotted_dice g) (dialogs g).
Definition set_dice_choice (c : string) (g : BalancedDiceGUI) :=
  mkGUI (overlay_active g) (entry_rolls g) c (overlay_choice g) (ax g)
        (canvas g) (text_freq g) (plotted_dice g) (dialogs g).
Definition set_overlay_choice (b : bool) (g : BalancedDiceGUI) :=
  mkGUI (overlay_active g) (entry_rolls g) (dice_choice g) b (ax g)
        (canvas g) (text_freq g) (plotted_dice g) (dialogs g).
Definition set_ax (a : Axes) (g : BalancedDiceGUI) :=
  mkGUI (overlay_active g) (entry_rolls g) (dice_choice g) (overlay_choice g) a
        (canvas g) (text_freq g) (plotted_dice g) (dialogs g).
Definition set_canvas (a : Axes) (g : BalancedDiceGUI) :=
  mkGUI (overlay_active g) (entry_rolls g) (dice_choice g) (overlay_choice g)
        (ax g) a (text_freq g) (plotted_dice g) (dialogs g).
Definition set_text_freq (t : TextWidget) (g : BalancedDiceGUI) :=
  mkGUI (overlay_active g) (entry_rolls g) (dice_choice g) (overlay_choice g)
        (ax g) (canvas g) t (plotted_dice g) (dialogs g).
Definition set_plotted_dice (p : option (gset string)) (g : BalancedDiceGUI) :=
  mkGUI (overlay_active g) (entry_rolls g) (dice_choice g) (overlay_choice g)
        (ax g) (canvas g) (text_freq g) p (dialogs g).
Definition set_dialogs (d : list Dialog) (g : BalancedDiceGUI) :=
  mkGUI (overlay_active g) (entry_rolls g) (dice_choice g) (overlay_choice g)
        (ax g) (canvas g) (text_freq g) (plotted_dice g) d.

(** [ax.clear()] leaves axes without artists, labels or legend. *)
Definition empty_axes : Axes := mkAxes [] "" "" "" None.

(** The state [__init__] builds: radio button on Standard, overlay box
    unchecked, nothing typed, nothing drawn, no [plotted_dice] yet. *)
Definition init_gui : BalancedDiceGUI :=
  mkGUI false None "Standard" false empty_axes empty_axes
        (mkText DISABLED "") None [].

(** The program state: the window and the store with the generator. *)
Record App := mkApp {
  self : BalancedDiceGUI;
  world : W
}.

Definition get_self : M App BalancedDiceGUI := λ s, inr (self s, s).

Definition modify_self (f : BalancedDiceGUI → BalancedDiceGUI) : M App () :=
  λ s, inr ((), mkApp (f (self s)) (world s)).

(** Runs a computation of the core on the store of the program. *)
Definition in_world {A} (m : M W A) : M App A :=
  λ s, match m (world s) with
       | inr (a, w) => inr (a, mkApp (self s) w)
       | inl e => inl e
       end.

(** A Tk text widget ignores [insert] and [delete] while disabled. *)
Definition text_config (st : TkState) : M App () :=
  modify_self (λ g, set_text_freq (mkText st (text_content (text_freq g))) g).

Definition text_delete_all : M App () :=
  modify_self (λ g,
    match text_state (text_freq g) with
    | NORMAL => set_text_freq (mkText NORMAL "") g
    | DISABLED => g
    end).

Definition text_insert_end (chars : string) : M App () :=
  modify_self (λ g,
    match text_state (text_freq g) with
    | NORMAL =>
        set_text_freq (mkText NORMAL (text_content (text_freq g) +:+ chars)) g
    | DISABLED => g
    end).

Definition messagebox (kind : DialogKind) (title message : string) : M App () :=
  modify_self (λ g, set_dialogs (dialogs g ++ [mkDialog kind title message]) g).

Definition canvas_draw : M App () :=
  modify_self (λ g, set_canvas (ax g) g).

(** [plot_results(results, label, self.ax)] *)
Definition plot_results (results : list Z) (label : string) : M App () :=
  let counts := (λ i, (i, py_count i results)) <$> py_range2 2 13 in
  modify_self (λ g,
    set_ax (mkAxes (bars (ax g) ++ [mkBars label counts])
                   "Dice roll" "Frequency" "Dice roll simulation"
                   (Some "upper right")) g).

(** [self.plotted_dice.add(name)]; the attribute exists whenever the
    program gets here. *)
Definition plotted_add (name : string) : M App () :=
  modify_self (λ g,
    set_plotted_dice (Some ({[name]} ∪ default ∅ (plotted_dice g))) g).

(** [name not in self.plotted_dice] *)
Definition not_plotted (name : string) : M App bool :=
  g ← get_self;
  ret (bool_decide (name ∉ default ∅ (plotted_dice g))).

(** [d[key] = value] on a dictionary kept as its items in insertion
    order. *)
Definition dict_set {V} (key : string) (value : V) (d : list (string * V))
  : list (string * V) :=
  if bool_decide (key ∈ d.*1)
  then (λ kv, if bool_decide (kv.1 = key) then (key, value) else kv) <$> d
  else d ++ [(key, value)].

(** What the user does to the widgets between two presses of a button. *)
Definition user_types_rolls (n : option Z) : M App () :=
  modify_self (set_entry_rolls n).
Definition user_picks_dice (choice : string) : M App () :=
  modify_self (set_dice_choice choice).
Definition user_checks_overlay (checked : bool) : M App () :=
  modify_self (set_overlay_choice checked).

Definition clear_graph : M App () :=
  modify_self (set_ax empty_axes);;
  canvas_draw;;
  modify_self (set_plotted_dice (Some ∅));;
  modify_self (set_overlay_choice false);;
  modify_self (set_overlay_active false);;
  text_config NORMAL;;
  text_delete_all;;
  text_config DISABLED;;
  messagebox ShowInfo "Graphs and frequencies cleared"
    "Graphs and frequencies have been cleared. You can now plot new simulations.".

Definition calculate_frequencies (results : list Z) : M App (gmap Z Z) :=
  let frequencies : gmap Z Z := list_to_map ((λ i, (i, 0)) <$> py_range2 2 13) in
  for_in results
    (λ result (frequencies : gmap Z Z),
       match frequencies !! result with
       | Some n => ret (<[result := n + 1]> frequencies)
       | None => ret frequencies
       end)
    frequencies.

(** The order of Python on pairs of integers. *)
Definition tuple_le (a b : Z * Z) : Prop :=
  a.1 < b.1 ∨ (a.1 = b.1 ∧ a.2 ≤ b.2).

Global Instance tuple_le_dec a b : Decision (tuple_le a b).
Proof. unfold tuple_le. apply _. Defined.

(** [sorted(frequencies.items())] *)
Definition sorted_items (frequencies : gmap Z Z) : list (Z * Z) :=
  merge_sort tuple_le (map_to_list frequencies).

Definition display_frequencies (frequencies_dict : list (string * gmap Z Z))
  : M App () :=
  text_config NORMAL;;
  g ← get_self;
  when (negb (overlay_choice g)) text_delete_all;;
  when (bool_decide (frequencies_dict ≠ []))
    (for_in frequencies_dict
       (λ '(dice_type, frequencies) (_ : ()),
          text_insert_end ("Frequencies for " +:+ dice_type +:+ ":" +:+ newline);;
          for_in (sorted_items frequencies)
            (λ '(number, frequency) (_ : ()),
               text_insert_end
                 (" " +:+ py_str number +:+ ": " +:+ py_str frequency +:+ newline))
            ();;
          text_insert_end newline)
       ());;
  text_config DISABLED.

Definition start_simulation : M App () :=
  g ← get_self;
  match entry_rolls g with
  | None =>
      messagebox ShowError "Error"
        "Invalid input: Please input a valid number of rolls."
  | Some num_rolls =>
    if bool_decide (num_rolls ≤ 0) then
      messagebox ShowError "Error"
        "Invalid input: Please input a valid number of rolls."
    else
      when (overlay_active g)
        (messagebox ShowError "Clear required"
           "Please clear the graph before plotting again.");;
      when (negb (overlay_choice g))
        (modify_self (set_ax empty_axes);;
         modify_self (set_overlay_active false);;
         modify_self (set_plotted_dice (Some ∅)));;
      g ← get_self;
      when (bool_decide (plotted_dice g = None))
        (modify_self (set_plotted_dice (Some ∅)));;
      let displayed_frequencies : list (string * gmap Z Z) := [] in
      displayed_frequencies ←
        (if bool_decide (dice_choice g = "Standard") then
           fresh ← not_plotted "Standard";
           displayed_frequencies ←
             (if fresh then
                standard_results ←
                  in_world (simulate_rolls (Nullary roll_standard_dice) num_rolls []);
                frequencies ← calculate_frequencies standard_results;
                plot_results standard_results "Standard dice";;
                plotted_add "Standard";;
                ret (dict_set "Standard dice" frequencies displayed_frequencies)
              else ret displayed_frequencies);
           if overlay_choice g then
             fresh ← not_plotted "Balanced";
             if fresh then
               balanced_queue ← in_world (create_balanced_queue EXPECTED_DIST_2_12);
               balanced_results ←
                 in_world (simulate_rolls (Unary roll_balanced_dice) num_rolls
                             [balanced_queue]);
               frequencies ← calculate_frequencies balanced_results;
               plot_results balanced_results "Balanced dice";;
               plotted_add "Balanced";;
               modify_self (set_overlay_active true);;
               ret (dict_set "Balanced dice" frequencies displayed_frequencies)
             else ret displayed_frequencies
           else ret displayed_frequencies
         else if bool_decide (dice_choice g = "Balanced") then
           fresh ← not_plotted "Balanced";
           displayed_frequencies ←
             (if fresh then
                balanced_queue ← in_world (create_balanced_queue EXPECTED_DIST_2_12);
                balanced_results ←
                  in_world (simulate_rolls (Unary roll_balanced_dice) num_rolls
                              [balanced_queue]);
                frequencies ← calculate_frequencies balanced_results;
                plot_results balanced_results "Balanced dice";;
                plotted_add "Balanced";;
                ret (dict_set "Balanced dice" frequencies displayed_frequencies)
              else ret displayed_frequencies);
           if overlay_choice g then
             fresh ← not_plotted "Standard";
             if fresh then
               standard_results ←
                 in_world (simulate_rolls (Nullary roll_standard_dice) num_rolls []);
               frequencies ← calculate_frequencies standard_results;
               plot_results standard_results "Standard dice";;
               plotted_add "Standard";;
               modify_self (set_overlay_active true);;
               ret (dict_set "Standard dice" frequencies displayed_frequencies)
             else ret displayed_frequencies
           else ret displayed_frequencies
         else ret displayed_frequencies);
      display_frequencies displayed_frequencies;;
      canvas_draw
  end.

(** The message box of the overlay conflict. *)
Definition clear_required : Dialog :=
  mkDialog ShowError "Clear required"
           "Please clear the graph before plotting again.".

(** A session at the window: the user asks for 3 rolls of the standard
    dice, then checks the overlay box and presses the button again, which
    adds the balanced dice: two series are plotted. *)
Definition two_series_session : M App () :=
  user_types_rolls (Some 3);;
  user_picks_dice "Standard";;
  start_simulation;;
  user_checks_overlay true;;
  start_simulation.

End Core.

(** ** Notions the properties are stated with *)

(** An outcome is a sum of two dice. *)
Definition is_outcome (v : Z) : Prop := 2 ≤ v ≤ 12.

(** The weight the distribution table gives to a value; [0] for a value
    that is not a key. *)
Definition weight (v : Z) : Z :=
  default 0 ((list_to_map EXPECTED_DIST_2_12 : gmap Z Z) !! v).

(** Each key of the table repeated as many times as its weight, in the
    order of the table: the queue before it is shuffled. *)
Definition expansion (dist : list (Z * Z)) : list Z :=
  concat ((λ '(number, count), py_repeat number count) <$> dist).

Section Notions.
Context {R : Type} `{RandomSource R}.

Abbreviation W := (World R).

(** One invocation of the roller, the way the loop of [simulate_rolls]
    makes it: the roll and the arguments for the next invocation. *)
Definition call (roll_function : RollFunction) (args : list loc)
  : M W (Z * list loc) :=
  if bool_decide (args ≠ []) then call_with_args roll_function args
  else roll ← call_no_args roll_function; ret (roll, args).

(** The rolls that [n] successive invocations produce, first one first;
    the list stops where an invocation raises. *)
Fixpoint produced (roll_function : RollFunction) (n : nat) (args : list loc)
    (w : W) : list Z :=
  match n with
  | O => []
  | S n' =>
      match call roll_function args w with
      | inr ((roll, args'), w') => roll :: produced roll_function n' args' w'
      | inl _ => []
      end
  end.

(** The values [n] successive calls [f()] return, first one first, each
    call made in the state the call before has left; the list stops where
    a call raises.  This is defined from the roll function alone. *)
Fixpoint nullary_rolls (f : M W Z) (n : nat) (w : W) : list Z :=
  match n with
  | O => []
  | S n' =>
      match f w with
      | inr (roll, w') => roll :: nullary_rolls f n' w'
      | inl _ => []
      end
  end.

(** The values [n] successive calls [f(queue)] return, first one first,
    each call made on the queue the call before has returned and in the
    state it has left. *)
Fixpoint unary_rolls (f : loc → M W (Z * loc)) (n : nat) (queue : loc) (w : W)
  : list Z :=
  match n with
  | O => []
  | S n' =>
      match f queue w with
      | inr ((roll, queue'), w') => roll :: unary_rolls f n' queue' w'
      | inl _ => []
      end
  end.

(** The body of the loop run [n] times. *)
Fixpoint steps (roll_function : RollFunction) (n : nat)
    (locals : list Z * list loc) : M W (list Z * list loc) :=
  match n with
  | O => ret locals
  | S n' =>
      locals' ← simulate_step roll_function locals;
      steps roll_function n' locals'
  end.

(** The queue states a program can reach: a queue as
    [create_balanced_queue] builds it from the table, and whatever
    [roll_balanced_dice] makes of a reachable queue. *)
Inductive reachable : loc → W → Prop :=
  | reachable_fresh w queue w' :
      create_balanced_queue EXPECTED_DIST_2_12 w = inr (queue, w') →
      reachable queue w'
  | reachable_roll queue w roll queue' w' :
      reachable queue w →
      roll_balanced_dice queue w = inr ((roll, queue'), w') →
      reachable queue' w'.

(** A computation that only writes to the text widget. *)
Definition text_only (m : M (@App R) ()) : Prop :=
  ∀ app, ∃ t, m app = inr ((), mkApp (set_text_freq t (self app)) (world app)).

End Notions.

(** ** A generator that reads its choices from a tape

    [random.shuffle] follows CPython's [Lib/random.py]: for [i] from
    [len(x) - 1] down to [1], pick [j = randbelow(i + 1)] and exchange
    [x[i]] and [x[j]].  The tape is the list of raw draws still to come;
    an exhausted tape keeps giving [0]. *)
Module Tape.

Definition randbelow (n : nat) (g : list nat) : nat * list nat :=
  match g with
  | [] => (0%nat, [])
  | r :: g' => ((r mod n)%nat, g')
  end.

Definition randint (a b : Z) (g : list nat) : Z * list nat :=
  let '(r, g') := randbelow (Z.to_nat (b - a + 1)) g in
  (a + Z.of_nat r, g').

(** [x[i], x[j] = x[j], x[i]] *)
Definition swap (i j : nat) (x : list Z) : list Z :=
  match x !! i, x !! j with
  | Some a, Some b => <[j := a]> (<[i := b]> x)
  | _, _ => x
  end.

Fixpoint shuffle_from (i : nat) (x : list Z) (g : list nat) : list Z * list nat :=
  match i with
  | O => (x, g)
  | S i' =>
      let '(j, g') := randbelow (S i) g in
      shuffle_from i' (swap i j x) g'
  end.

Definition shuffle (x : list Z) (g : list nat) : list Z * list nat :=
  shuffle_from (length x - 1) x g.

End Tape.

(** A tape to run the program on. *)
Definition demo_tape : list nat :=
  [3; 1; 4; 1; 5; 9; 2; 6; 5; 3; 5; 8; 9; 7; 9; 3; 2; 3; 8; 4; 6; 2; 6; 4; 3;
   3; 8; 3; 2; 7; 9; 5; 0; 2; 8; 8; 4; 1; 9; 7; 1; 6; 9; 3; 9; 9; 3; 7; 5; 1]%nat.

Definition demo_world : World (list nat) := mkWorld demo_tape [].

(** The window as [__init__] leaves it, on the tape generator. *)
Definition fresh_window : @App (list nat) := mkApp init_gui demo_world.

(** A store with one short queue. *)
Definition short_queue_world : World (list nat) :=
  mkWorld demo_tape [[4; 7; 9; 2]].

(** The store after [create_balanced_queue] has run on [demo_world]. *)
Definition first_cycle_world : World (list nat) :=
  mkWorld [8; 4; 1; 9; 7; 1; 6; 9; 3; 9; 9; 3; 7; 5; 1]%nat
          [[10; 8; 8; 6; 6; 8; 2; 6; 6; 7; 6; 7; 7; 7; 7; 9; 11; 8; 7; 9;
            9; 8; 5; 10; 5; 9; 12; 10; 5; 3; 5; 4; 11; 4; 3; 4]].

(** The store after 36 balanced rolls on [first_cycle_world]: the queue
    is used up. *)
Definition drained_world : World (list nat) :=
  mkWorld [8; 4; 1; 9; 7; 1; 6; 9; 3; 9; 9; 3; 7; 5; 1]%nat [[]].

(** A store with one empty queue. *)
Definition empty_queue_world : World (list nat) :=
  mkWorld demo_tape [[]].

(** ** Notions for the properties of the window *)

(** [sum(xs)] *)
Definition py_sum (xs : list Z) : Z := foldr Z.add 0 xs.

(** The heights [plot_results] and [visualise_results] give the bars of
    one series: for each of 2 to 12, how often it occurs in [results]. *)
Definition bar_counts (results : list Z) : list (Z * Z) :=
  (λ i, (i, py_count i results)) <$> py_range2 2 13.

(** The text [display_frequencies] writes for one table, given its items
    in the order they are written: a heading, a line per item, an empty
    line. *)
Definition render_lines (items : list (Z * Z)) : string :=
  foldr (λ '(number, frequency) rest,
           (" " +:+ py_str number +:+ ": " +:+ py_str frequency +:+ newline)
           +:+ rest)
        "" items.

Definition render_table (dice_type : string) (items : list (Z * Z)) : string :=
  ("Frequencies for " +:+ dice_type +:+ ":" +:+ newline)
  +:+ render_lines items +:+ newline.

(** The text for a whole dictionary of tables. *)
Definition render_frequencies (frequencies_dict : list (string * gmap Z Z))
  : string :=
  foldr (λ '(dice_type, frequencies) rest,
           render_table dice_type (sorted_items frequencies) +:+ rest)
        "" frequencies_dict.

Section WindowNotions.
Context {R : Type}.

(** A computation that, on an enabled text widget, appends [chars] to
    the text and does nothing else. *)
Definition appends (m : M (@App R) ()) (chars : string) : Prop :=
  ∀ g w,
    text_state (text_freq g) = NORMAL →
    m (mkApp g w) =
      inr ((), mkApp (set_text_freq
                        (mkText NORMAL (text_content (text_freq g) +:+ chars)) g)
                     w).

(** The message box for a roll count that is not a positive number. *)
Definition invalid_input : Dialog :=
  mkDialog ShowError "Error"
           "Invalid input: Please input a valid number of rolls.".

(** The message box of the clear button. *)
Definition cleared_info : Dialog :=
  mkDialog ShowInfo "Graphs and frequencies cleared"
    "Graphs and frequencies have been cleared. You can now plot new simulations.".

(** The axes after [plot_results] has been called on them. *)
Definition plotted_axes (series : list BarContainer) : Axes :=
  mkAxes series "Dice roll" "Frequency" "Dice roll simulation"
         (Some "upper right").

(** The window after a press of the button that has plotted one series
    on cleared axes. *)
Definition single_series_window (n : Z) (dice label : string)
    (results : list Z) (shown : list Dialog) : BalancedDiceGUI :=
  let axes := plotted_axes [mkBars label (bar_counts results)] in
  mkGUI false (Some n) dice false axes axes
        (mkText DISABLED (render_table label (bar_counts results)))
        (Some {[dice]}) shown.

(** The window after a press of the button that has added a second
    series to [g]. *)
Definition overlay_window (g : BalancedDiceGUI) (other label : string)
    (results : list Z) : BalancedDiceGUI :=
  let axes := plotted_axes (bars (ax g) ++ [mkBars label (bar_counts results)]) in
  mkGUI true (entry_rolls g) (dice_choice g) true axes axes
        (mkText DISABLED (text_content (text_freq g)
                          +:+ render_table label (bar_counts results)))
        (Some ({[other]} ∪ default ∅ (plotted_dice g))) (dialogs g).

End WindowNotions.

(** ** The script [balanced-dice.py]

    The console is modelled by what the program writes to it and shows
    on it, in order.  What the user types is given beforehand:
    [rolls_answer] is what [int(input(..))] makes of the first line, the
    message of the [ValueError] or the number; [algorithm_answer] and
    [overlay_answer] are the second and third line after [.lower()].  A
    line the program never asks for is never looked at.

    The functions of [matplotlib.pyplot] draw on its current figure,
    which is part of the state of the script; the script never opens,
    clears or closes a figure itself.  A figure is modelled by its
    series, titles, ticks and legend.  The offsets and the width of the
    bars are floating-point numbers and are left out.

    What [plt.show()] leaves behind depends on the backend.  With a
    window backend it returns when the user has closed the window, and
    the figure is gone: the next drawing starts on a new figure.  With a
    backend that shows no window (Agg) it returns at once and the figure
    stays current.  [show_closes] tells which of the two holds. *)

Record Figure := mkFigure {
  fig_series : list BarContainer;
  fig_title : string;
  fig_xlabel : string;
  fig_ylabel : string;
  fig_xticks : option (list Z);
  fig_legend : bool
}.

(** A new figure: nothing drawn, nothing set. *)
Definition empty_figure : Figure := mkFigure [] "" "" "" None false.

Inductive Event :=
  | Print (line : string)       (* print(line) *)
  | Prompt (text : string)      (* the prompt of input(text) *)
  | Show (figure : Figure).     (* plt.show() *)

Section Script.
Context {R : Type} `{RandomSource R}.

Record Script := mkScript {
  console : list Event;
  pyplot : Figure;
  show_closes : bool;
  script_world : World R
}.

Definition emit (e : Event) : M Script () :=
  λ s, inr ((), mkScript (console s ++ [e]) (pyplot s) (show_closes s)
                         (script_world s)).

(** Runs a computation of the core on the store of the script. *)
Definition in_script {A} (m : M (World R) A) : M Script A :=
  λ s, match m (script_world s) with
       | inr (a, w) => inr (a, mkScript (console s) (pyplot s) (show_closes s) w)
       | inl e => inl e
       end.

(** A drawing command on the current figure. *)
Definition plt_draw (f : Figure → Figure) : M Script () :=
  λ s, inr ((), mkScript (console s) (f (pyplot s)) (show_closes s)
                         (script_world s)).

(** [plt.bar(.., label=label)] with the given heights. *)
Definition plt_bar (series : BarContainer) : M Script () :=
  plt_draw (λ fig, mkFigure (fig_series fig ++ [series]) (fig_title fig)
                            (fig_xlabel fig) (fig_ylabel fig) (fig_xticks fig)
                            (fig_legend fig)).

Definition plt_title (label : string) : M Script () :=
  plt_draw (λ fig, mkFigure (fig_series fig) label (fig_xlabel fig)
                            (fig_ylabel fig) (fig_xticks fig) (fig_legend fig)).

Definition plt_xlabel (label : string) : M Script () :=
  plt_draw (λ fig, mkFigure (fig_series fig) (fig_title fig) label
                            (fig_ylabel fig) (fig_xticks fig) (fig_legend fig)).

Definition plt_ylabel (label : string) : M Script () :=
  plt_draw (λ fig, mkFigure (fig_series fig) (fig_title fig) (fig_xlabel fig)
                            label (fig_xticks fig) (fig_legend fig)).

Definition plt_xticks (ticks : list Z) : M Script () :=
  plt_draw (λ fig, mkFigure (fig_series fig) (fig_title fig) (fig_xlabel fig)
                            (fig_ylabel fig) (Some ticks) (fig_legend fig)).

Definition plt_legend : M Script () :=
  plt_draw (λ fig, mkFigure (fig_series fig) (fig_title fig) (fig_xlabel fig)
                            (fig_ylabel fig) (fig_xticks fig) true).

(** [plt.show()]: the current figure is shown as it is; afterwards it is
    gone or still current, as the backend has it. *)
Definition plt_show : M Script () :=
  λ s, inr ((), mkScript (console s ++ [Show (pyplot s)])
                         (if show_closes s then empty_figure else pyplot s)
                         (show_closes s) (script_world s)).

(** [visualise_results(first, *rest)]: called with at least one pair of
    results and label, as [main] does. *)
Definition visualise_results (first : list Z * string)
    (rest : list (list Z * string)) : M Script () :=
  for_in (first :: rest)
    (λ '(results, label) (_ : ()), plt_bar (mkBars label (bar_counts results)))
    ();;
  plt_title "Simulation results";;
  plt_xlabel "Dice roll";;
  plt_ylabel "Frequency";;
  plt_xticks (py_range2 2 13);;
  plt_legend;;
  plt_show.

Definition main (rolls_answer : string + Z)
    (algorithm_answer overlay_answer : string) : M Script () :=
  emit (Print "----------------");;
  emit (Print "BALANCED DICE SIMULATION");;
  emit (Print "----------------");;
  emit (Prompt (newline +:+ "Enter the number of rolls: "));;
  match rolls_answer with
  | inl error => emit (Print ("Error: " +:+ error))
  | inr num_rolls =>
    if bool_decide (num_rolls ≤ 0) then
      emit (Print ("Error: " +:+ "Number of rolls must be positive."))
    else
      emit (Prompt "Choose your algorithm: (S)tandard or (B)alanced? ");;
      if bool_decide (algorithm_answer ∈ ["s"; "standard"]) then
        standard_results ←
          in_script (simulate_rolls (Nullary roll_standard_dice) num_rolls []);
        visualise_results (standard_results, "Standard dice distribution") [];;
        emit (Prompt
          "Would you like to overlay with a balanced dice graph? (Y)es or (N)o: ");;
        if bool_decide (overlay_answer ∈ ["y"; "yes"]) then
          balanced_queue ← in_script (create_balanced_queue EXPECTED_DIST_2_12);
          balanced_results ←
            in_script (simulate_rolls (Unary roll_balanced_dice) num_rolls
                         [balanced_queue]);
          visualise_results (standard_results, "Standard dice")
                            [(balanced_results, "Balanced dice")]
        else ret ()
      else if bool_decide (algorithm_answer ∈ ["b"; "balanced"]) then
        balanced_queue ← in_script (create_balanced_queue EXPECTED_DIST_2_12);
        balanced_results ←
          in_script (simulate_rolls (Unary roll_balanced_dice) num_rolls
                       [balanced_queue]);
        visualise_results (balanced_results, "Balanced dice distribution") [];;
        emit (Prompt
          "Would you like to overlay with a standard dice graph? (Y)es or (N)o: ");;
        if bool_decide (overlay_answer ∈ ["y"; "yes"]) then
          standard_results ←
            in_script (simulate_rolls (Nullary roll_standard_dice) num_rolls []);
          visualise_results (balanced_results, "Balanced dice")
                            [(standard_results, "Standard dice")]
        else ret ()
      else
        emit (Print "You have made an invalid choice.");;
        emit (Print "Please choose (S)tandard or (B)alanced.")
  end.

(** What [main] writes before it looks at the first answer. *)
Definition banner : list Event :=
  [Print "----------------"; Print "BALANCED DICE SIMULATION";
   Print "----------------";
   Prompt (newline +:+ "Enter the number of rolls: ")].

(** The bars of the given pairs of results and label. *)
Definition series_of (pairs : list (list Z * string)) : list BarContainer :=
  (λ '(results, label), mkBars label (bar_counts results)) <$> pairs.

(** The figure [fig] after one call of [visualise_results] has drawn the
    given pairs on it. *)
Definition drawn_on (fig : Figure) (pairs : list (list Z * string)) : Figure :=
  mkFigure (fig_series fig ++ series_of pairs)
           "Simulation results" "Dice roll" "Frequency"
           (Some [2; 3; 4; 5; 6; 7; 8; 9; 10; 11; 12]) true.

(** The current figure after [plt.show()] has returned. *)
Definition after_show (closes : bool) (fig : Figure) : Figure :=
  if closes then empty_figure else fig.

End Script.

(** ** States to run the window and the script from *)

(** A new window with 3 typed into the entry. *)
Definition three_rolls_window : @App (list nat) :=
  mkApp (set_entry_rolls (Some 3) init_gui) demo_world.

(** A window showing three standard rolls, with the overlay box checked
    since. *)
Definition one_series_window : @App (list nat) :=
  mkApp (set_overlay_choice true
           (single_series_window 3 "Standard" "Standard dice" [6; 7; 10] []))
        (mkWorld (drop 6 demo_tape) []).

(** A window with both series plotted and the overlay box still checked. *)
Definition two_series_window : @App (list nat) :=
  mkApp (overlay_window (self one_series_window) "Balanced" "Balanced dice"
           [3; 4; 5])
        demo_world.

(** The script before its first line, with a window backend. *)
Definition new_script : @Script (list nat) :=
  mkScript [] empty_figure true demo_world.

(** The script before its first line, with a backend that shows no
    window. *)
Definition new_script_agg : @Script (list nat) :=
  mkScript [] empty_figure false demo_world.

(** * Properties *)

(** ** The tape generator meets the contracts of [random] *)

Lemma randbelow_lt n g : (0 < n)%nat → ((Tape.randbelow n g).1 < n)%nat.
Proof.
  intros Hn. destruct g as [|r g]; simpl; [done|].
  apply Nat.mod_upper_bound. lia.
Qed.

Lemma tape_randint_range a b g : a ≤ b → a ≤ (Tape.randint a b g).1 ≤ b.
Proof.
  intros Hab. unfold Tape.randint.
  pose proof (randbelow_lt (Z.to_nat (b - a + 1)) g) as Hlt.
  destruct (Tape.randbelow _ g) as [r g']; simpl in *. lia.
Qed.

Lemma swap_perm i j x : Tape.swap i j x ≡ₚ x.
Proof.
  unfold Tape.swap.
  destruct (x !! i) as [a|] eqn:Hi; [|done].
  destruct (x !! j) as [b|] eqn:Hj; [|done].
  apply Permutation_inj. split; [by rewrite !length_insert|].
  exists (λ p, if decide (p = i) then j else if decide (p = j) then i else p).
  split.
  - intros p q. repeat case_decide; congruence.
  - intros p. pose proof (lookup_lt_Some _ _ _ Hi). pose proof (lookup_lt_Some _ _ _ Hj).
    destruct (decide (p = j)) as [->|Hpj].
    + rewrite list_lookup_insert_eq by (by rewrite length_insert).
      case_decide; congruence.
    + rewrite list_lookup_insert_ne by done.
      destruct (decide (p = i)) as [->|Hpi].
      * by rewrite list_lookup_insert_eq.
      * by rewrite list_lookup_insert_ne.
Qed.

Lemma shuffle_from_perm i x g : (Tape.shuffle_from i x g).1 ≡ₚ x.
Proof.
  revert x g. induction i as [|i IH]; intros x g; [done|].
  cbn [Tape.shuffle_from].
  destruct (Tape.randbelow (S (S i)) g) as [j g'].
  rewrite IH. apply swap_perm.
Qed.

Lemma tape_shuffle_perm x g : (Tape.shuffle x g).1 ≡ₚ x.
Proof. apply shuffle_from_perm. Qed.

Global Instance tape_source : RandomSource (list nat) := {
  randint := Tape.randint;
  shuffle := Tape.shuffle;
  randint_range := tape_randint_range;
  shuffle_perm := tape_shuffle_perm
}.

(** ** The simulation core *)

Lemma py_pop_snoc q v : py_pop (q ++ [v]) = Some (v, q).
Proof. unfold py_pop. by rewrite last_snoc, removelast_last. Qed.

Lemma insert_snoc {A} (h : list A) x y : <[length h := y]> (h ++ [x]) = h ++ [y].
Proof. rewrite insert_app_r_alt by done. by rewrite Nat.sub_diag. Qed.

Lemma expansion_cons number count dist :
  expansion ((number, count) :: dist) = py_repeat number count ++ expansion dist.
Proof. done. Qed.

Lemma expansion_table :
  expansion EXPECTED_DIST_2_12 =
    [2; 3; 3; 4; 4; 4; 5; 5; 5; 5; 6; 6; 6; 6; 6; 7; 7; 7; 7; 7; 7;
     8; 8; 8; 8; 8; 9; 9; 9; 9; 10; 10; 10; 11; 11; 12].
Proof. reflexivity. Qed.

Lemma py_count_perm v x y : x ≡ₚ y → py_count v x = py_count v y.
Proof. intros Hxy. unfold py_count. by rewrite Hxy. Qed.

Lemma py_count_app v x y : py_count v (x ++ y) = py_count v x + py_count v y.
Proof. unfold py_count. rewrite filter_app, length_app. lia. Qed.

Lemma expansion_outcomes : Forall is_outcome (expansion EXPECTED_DIST_2_12).
Proof. rewrite expansion_table. unfold is_outcome. repeat constructor; lia. Qed.

Lemma expansion_length : length (expansion EXPECTED_DIST_2_12) = 36%nat.
Proof. reflexivity. Qed.

(** Splits on [v] being one of the keys 2..12 of the table. *)
Ltac table_cases v :=
  destruct (decide (v = 2)) as [->|?];
  [|destruct (decide (v = 3)) as [->|?];
  [|destruct (decide (v = 4)) as [->|?];
  [|destruct (decide (v = 5)) as [->|?];
  [|destruct (decide (v = 6)) as [->|?];
  [|destruct (decide (v = 7)) as [->|?];
  [|destruct (decide (v = 8)) as [->|?];
  [|destruct (decide (v = 9)) as [->|?];
  [|destruct (decide (v = 10)) as [->|?];
  [|destruct (decide (v = 11)) as [->|?];
  [|destruct (decide (v = 12)) as [->|?]]]]]]]]]]].

Lemma weight_lookup v :
  (list_to_map EXPECTED_DIST_2_12 : gmap Z Z) !! v =
    if decide (is_outcome v) then Some (weight v) else None.
Proof.
  unfold weight. table_cases v; try reflexivity.
  rewrite decide_False by (unfold is_outcome; lia).
  unfold EXPECTED_DIST_2_12. cbn [list_to_map foldr fst snd uncurry].
  rewrite !lookup_insert_ne by done. apply lookup_empty.
Qed.

Lemma weight_outside v : ¬ is_outcome v → weight v = 0.
Proof.
  intros Hv. unfold weight. rewrite weight_lookup. by rewrite decide_False.
Qed.

(** The expansion of the table holds each value as often as its weight
    says. *)
Lemma count_expansion v :
  py_count v (expansion EXPECTED_DIST_2_12) = weight v.
Proof.
  table_cases v; try reflexivity.
  rewrite weight_outside by (unfold is_outcome; lia).
  rewrite expansion_table. unfold py_count.
  rewrite !filter_cons_False by lia. done.
Qed.

Lemma py_count_nonneg v x : 0 ≤ py_count v x.
Proof. unfold py_count. lia. Qed.

Lemma submseteq_count v x y : x ⊆+ y → py_count v x ≤ py_count v y.
Proof.
  intros (k & Hk)%submseteq_Permutation.
  rewrite (py_count_perm _ _ _ Hk), py_count_app.
  pose proof (py_count_nonneg v k). lia.
Qed.

Section CoreProofs.
Context {R : Type} `{RandomSource R}.

Abbreviation W := (World R).

Implicit Types (w : W) (q : list Z) (queue : loc) (rf : @RollFunction R).

Lemma bind_inr {S A B} (m : M S A) (k : A → M S B) s a s' :
  m s = inr (a, s') → bind m k s = k a s'.
Proof. unfold bind. by intros ->. Qed.

Lemma list_read_eq w queue q :
  heap w !! queue = Some q → list_read queue w = inr (q, w).
Proof. unfold list_read. by intros ->. Qed.

Lemma list_write_eq w queue q q' :
  heap w !! queue = Some q →
  list_write queue q' w = inr ((), mkWorld (rng w) (<[queue := q']> (heap w))).
Proof. unfold list_write. by intros ->. Qed.

Lemma list_extend_eq w queue q items :
  heap w !! queue = Some q →
  list_extend queue items w =
    inr ((), mkWorld (rng w) (<[queue := q ++ items]> (heap w))).
Proof.
  intros Hq. unfold list_extend.
  rewrite (bind_inr _ _ _ _ _ (list_read_eq _ _ _ Hq)).
  by apply list_write_eq with (q := q).
Qed.

Lemma list_is_empty_eq w queue q :
  heap w !! queue = Some q →
  list_is_empty queue w = inr (bool_decide (q = []), w).
Proof.
  intros Hq. unfold list_is_empty.
  by rewrite (bind_inr _ _ _ _ _ (list_read_eq _ _ _ Hq)).
Qed.

Lemma list_pop_snoc w queue q v :
  heap w !! queue = Some (q ++ [v]) →
  list_pop queue w = inr (v, mkWorld (rng w) (<[queue := q]> (heap w))).
Proof.
  intros Hq. unfold list_pop.
  rewrite (bind_inr _ _ _ _ _ (list_read_eq _ _ _ Hq)), py_pop_snoc.
  by rewrite (bind_inr _ _ _ _ _ (list_write_eq _ _ _ q Hq)).
Qed.

Lemma random_shuffle_eq w queue q :
  heap w !! queue = Some q →
  random_shuffle queue w =
    inr ((), mkWorld (shuffle q (rng w)).2
                     (<[queue := (shuffle q (rng w)).1]> (heap w))).
Proof.
  unfold random_shuffle. intros ->. by destruct (shuffle q (rng w)).
Qed.

(** The [for] loop of [create_balanced_queue] appends the expansion of
    the table to the new list object. *)
Lemma extend_loop dist (g : R) (h : list (list Z)) acc :
  for_in dist (λ '(number, count) (_ : ()),
                 list_extend (length h) (py_repeat number count)) ()
         (mkWorld g (h ++ [acc]))
  = inr ((), mkWorld g (h ++ [acc ++ expansion dist])).
Proof.
  revert acc. induction dist as [|[number count] dist IH]; intros acc.
  - unfold expansion. simpl. by rewrite app_nil_r.
  - cbn [for_in].
    erewrite bind_inr;
      [|apply list_extend_eq with (q := acc); by apply list_lookup_middle].
    cbn [heap rng]. rewrite insert_snoc, IH.
    by rewrite expansion_cons, app_assoc.
Qed.

Lemma create_balanced_queue_eq dist w :
  create_balanced_queue dist w =
    inr (length (heap w),
         mkWorld (shuffle (expansion dist) (rng w)).2
                 (heap w ++ [(shuffle (expansion dist) (rng w)).1])).
Proof.
  unfold create_balanced_queue.
  erewrite bind_inr by reflexivity.
  erewrite bind_inr by apply extend_loop.
  erewrite bind_inr;
    [|apply random_shuffle_eq with (q := expansion dist); by apply list_lookup_middle].
  cbn [heap rng app]. by rewrite insert_snoc.
Qed.

Lemma roll_balanced_dice_nonempty w queue q v :
  heap w !! queue = Some (q ++ [v]) →
  roll_balanced_dice queue w =
    inr ((v, queue), mkWorld (rng w) (<[queue := q]> (heap w))).
Proof.
  intros Hq. unfold roll_balanced_dice.
  rewrite (bind_inr _ _ _ _ _ (list_is_empty_eq _ _ _ Hq)).
  rewrite bool_decide_eq_false_2 by (by destruct q).
  erewrite bind_inr by reflexivity.
  by rewrite (bind_inr _ _ _ _ _ (list_pop_snoc _ _ _ _ Hq)).
Qed.

Lemma roll_balanced_dice_empty w queue q v :
  heap w !! queue = Some [] →
  (shuffle (expansion EXPECTED_DIST_2_12) (rng w)).1 = q ++ [v] →
  roll_balanced_dice queue w =
    inr ((v, length (heap w)),
         mkWorld (shuffle (expansion EXPECTED_DIST_2_12) (rng w)).2
                 (heap w ++ [q])).
Proof.
  intros Hq Hs. unfold roll_balanced_dice.
  rewrite (bind_inr _ _ _ _ _ (list_is_empty_eq _ _ _ Hq)).
  rewrite bool_decide_eq_true_2 by done.
  erewrite bind_inr by apply create_balanced_queue_eq.
  erewrite bind_inr;
    [|apply list_pop_snoc with (q := q); cbn [heap]; rewrite Hs;
      by apply list_lookup_middle].
  cbn [heap rng]. by rewrite insert_snoc.
Qed.

(** A shuffled full cycle is never empty, so it has a last item. *)
Lemma shuffled_cycle_snoc (g : R) :
  ∃ q v, (shuffle (expansion EXPECTED_DIST_2_12) g).1 = q ++ [v].
Proof.
  pose proof (shuffle_perm (expansion EXPECTED_DIST_2_12) g) as Hp.
  destruct ((shuffle (expansion EXPECTED_DIST_2_12) g).1) as [|x q] using rev_ind.
  - apply Permutation_length in Hp. done.
  - eauto.
Qed.

(** *** The loop of [simulate_rolls] *)

Lemma simulate_step_call rf results args w :
  simulate_step rf (results, args) w =
    match call rf args w with
    | inr ((roll, args'), w') => inr ((results ++ [roll], args'), w')
    | inl e => inl e
    end.
Proof.
  unfold simulate_step, call. case_bool_decide.
  - unfold bind, ret. by destruct (call_with_args rf args w) as [|[[??]?]].
  - unfold bind, ret. by destruct (call_no_args rf w) as [|[??]].
Qed.

Lemma for_in_steps {A} rf (xs : list A) locals w :
  for_in xs (λ _, simulate_step rf) locals w = steps rf (length xs) locals w.
Proof.
  revert locals w. induction xs as [|x xs IH]; intros locals w; [done|].
  cbn [for_in length steps]. unfold bind.
  by destruct (simulate_step rf locals w) as [|[??]].
Qed.

Lemma simulate_loop_steps rf n args w :
  simulate_loop rf n args w = steps rf (Z.to_nat n) ([], args) w.
Proof.
  unfold simulate_loop. rewrite for_in_steps.
  unfold py_range. by rewrite length_fmap, length_seq.
Qed.

(** Results already collected stay in front of the new ones. *)
Lemma steps_acc rf n acc results args w :
  steps rf n (acc ++ results, args) w =
    match steps rf n (results, args) w with
    | inr ((results', args'), w') => inr ((acc ++ results', args'), w')
    | inl e => inl e
    end.
Proof.
  revert results args w. induction n as [|n IH]; intros results args w; [done|].
  cbn [steps]. unfold bind. rewrite !simulate_step_call.
  destruct (call rf args w) as [|[[roll args'] w']]; [done|].
  by rewrite <-app_assoc, IH.
Qed.

Lemma steps_S rf n args w :
  steps rf (S n) ([], args) w =
    match call rf args w with
    | inr ((roll, args'), w') =>
        match steps rf n ([], args') w' with
        | inr ((results, args''), w'') => inr ((roll :: results, args''), w'')
        | inl e => inl e
        end
    | inl e => inl e
    end.
Proof.
  cbn [steps]. unfold bind. rewrite simulate_step_call.
  destruct (call rf args w) as [|[[roll args'] w']]; [done|].
  cbn [app]. apply (steps_acc rf n [roll] []).
Qed.

Lemma steps_add rf a b args w :
  steps rf (a + b) ([], args) w =
    match steps rf a ([], args) w with
    | inr ((results1, args1), w1) =>
        match steps rf b ([], args1) w1 with
        | inr ((results2, args2), w2) => inr ((results1 ++ results2, args2), w2)
        | inl e => inl e
        end
    | inl e => inl e
    end.
Proof.
  revert args w. induction a as [|a IH]; intros args w.
  - cbn [Nat.add steps]. unfold ret.
    by destruct (steps rf b ([], args) w) as [|[[??]?]].
  - cbn [Nat.add]. rewrite !steps_S.
    destruct (call rf args w) as [|[[roll args'] w']]; [done|].
    rewrite IH.
    destruct (steps rf a ([], args') w') as [|[[results1 args1] w1]]; [done|].
    by destruct (steps rf b ([], args1) w1) as [|[[??]?]].
Qed.

Lemma simulate_rolls_loop rf n args w :
  simulate_rolls rf n args w =
    match simulate_loop rf n args w with
    | inr ((results, _), w') => inr (results, w')
    | inl e => inl e
    end.
Proof.
  unfold simulate_rolls, bind, ret.
  by destruct (simulate_loop rf n args w) as [|[[??]?]].
Qed.

(** The loop returns the rolls in the order of the invocations. *)
Lemma steps_produced rf n args w results args' w' :
  steps rf n ([], args) w = inr ((results, args'), w') →
  results = produced rf n args w.
Proof.
  revert args w results args' w'.
  induction n as [|n IH]; intros args w results args' w'.
  - cbn. unfold ret. congruence.
  - rewrite steps_S. cbn [produced].
    destruct (call rf args w) as [|[[roll args1] w1]]; [done|].
    destruct (steps rf n ([], args1) w1) as [|[[results1 args2] w2]] eqn:Hn;
      [done|].
    intros [= <- <- <-]. f_equal. by eapply IH.
Qed.

Lemma call_unary f a w :
  call (Unary f) [a] w =
    match f a w with
    | inr ((roll, a'), w') => inr ((roll, [a']), w')
    | inl e => inl e
    end.
Proof.
  unfold call, call_with_args, bind, ret. cbn.
  by destruct (f a w) as [|[[??]?]].
Qed.

Lemma call_nullary (f : M W Z) w :
  call (Nullary f) [] w =
    match f w with
    | inr (roll, w') => inr ((roll, []), w')
    | inl e => inl e
    end.
Proof.
  unfold call, call_no_args, bind, ret. cbn.
  by destruct (f w) as [|[??]].
Qed.

(** *** Rolls that stay within the current queue *)

Lemma steps_lifo queue q2 : ∀ q1 w,
  heap w !! queue = Some (q1 ++ q2) →
  steps (Unary roll_balanced_dice) (length q2) ([], [queue]) w =
    inr ((reverse q2, [queue]), mkWorld (rng w) (<[queue := q1]> (heap w))).
Proof.
  induction q2 as [|v q2 IH] using rev_ind; intros q1 w Hq.
  - rewrite app_nil_r in Hq. cbn. unfold ret.
    rewrite list_insert_id by done. by destruct w.
  - rewrite length_app, Nat.add_1_r, steps_S, call_unary.
    rewrite app_assoc in Hq.
    rewrite (roll_balanced_dice_nonempty _ _ _ _ Hq).
    pose proof (lookup_lt_Some _ _ _ Hq) as Hlt.
    rewrite (IH q1) by (cbn [heap]; by rewrite list_lookup_insert_eq).
    cbn [heap rng]. by rewrite list_insert_insert_eq, reverse_snoc.
Qed.

(** C10 - LIFO pop order.  For a queue [q] and [1 <= n <= len(q)], [n]
    balanced rolls return the last [n] items of [q] in reverse order; the
    threaded argument is still the same list object, which now holds the
    first [len(q) - n] items of [q] in their order; no other object and
    not the generator has changed. *)
Theorem lifo_pop_order w queue q (n : Z) :
  heap w !! queue = Some q →
  1 ≤ n ≤ Z.of_nat (length q) →
  let kept := (length q - Z.to_nat n)%nat in
  let w' := mkWorld (rng w) (<[queue := take kept q]> (heap w)) in
  simulate_loop (Unary roll_balanced_dice) n [queue] w =
    inr ((reverse (drop kept q), [queue]), w')
  ∧ simulate_rolls (Unary roll_balanced_dice) n [queue] w =
      inr (reverse (drop kept q), w').
Proof.
  intros Hq Hn kept w'.
  assert (simulate_loop (Unary roll_balanced_dice) n [queue] w =
            inr ((reverse (drop kept q), [queue]), w')) as Hloop.
  { rewrite simulate_loop_steps.
    replace (Z.to_nat n) with (length (drop kept q))
      by (rewrite length_drop; subst kept; lia).
    apply steps_lifo. by rewrite take_drop. }
  split; [done|]. by rewrite simulate_rolls_loop, Hloop.
Qed.

(** A roll on an empty queue is [create_balanced_queue] on the table
    followed by a pop from the new list object. *)
Lemma roll_balanced_dice_rebuild w queue :
  heap w !! queue = Some [] →
  ∃ roll queue' cycle w1 w',
    create_balanced_queue EXPECTED_DIST_2_12 w = inr (queue', w1)
    ∧ queue' = length (heap w)
    ∧ heap w1 = heap w ++ [cycle]
    ∧ length cycle = 36%nat
    ∧ cycle ≡ₚ expansion EXPECTED_DIST_2_12
    ∧ list_pop queue' w1 = inr (roll, w')
    ∧ roll_balanced_dice queue w = inr ((roll, queue'), w').
Proof.
  intros Hq. destruct (shuffled_cycle_snoc (rng w)) as (q0 & roll & Hs).
  eexists roll, _, _, _, _. split; [apply create_balanced_queue_eq|].
  cbn [heap rng]. split_and!; try done.
  - rewrite (Permutation_length (shuffle_perm _ _)). apply expansion_length.
  - apply shuffle_perm.
  - rewrite Hs. apply list_pop_snoc. cbn [heap]. by apply list_lookup_middle.
  - rewrite (roll_balanced_dice_empty _ _ _ _ Hq Hs).
    cbn [heap rng]. by rewrite insert_snoc.
Qed.

(** *** One balanced roll, whatever the queue holds *)

(** Either the queue was empty, a new list object holding a shuffled full
    cycle without its last item is threaded on and that last item is the
    roll; or the roll is the last item of the queue, removed in place. *)
Lemma roll_balanced_dice_cases w queue q :
  heap w !! queue = Some q →
  ∃ roll queue' q' w',
    roll_balanced_dice queue w = inr ((roll, queue'), w')
    ∧ heap w' !! queue' = Some q'
    ∧ ((q = [] ∧ queue' = length (heap w) ∧ heap w' = heap w ++ [q']
        ∧ q' ++ [roll] ≡ₚ expansion EXPECTED_DIST_2_12)
       ∨ (q = q' ++ [roll] ∧ queue' = queue ∧ rng w' = rng w
          ∧ heap w' = <[queue := q']> (heap w))).
Proof.
  intros Hq. destruct q as [|v q _] using rev_ind.
  - destruct (shuffled_cycle_snoc (rng w)) as (q' & roll & Hs).
    eexists roll, (length (heap w)), q', _. split_and!.
    + by apply roll_balanced_dice_empty.
    + by apply list_lookup_middle.
    + left. split_and!; try done. rewrite <-Hs. apply shuffle_perm.
  - eexists v, queue, q, _. split_and!.
    + by apply roll_balanced_dice_nonempty.
    + cbn [heap]. apply list_lookup_insert_eq. by eapply lookup_lt_Some.
    + right. by split_and!.
Qed.

Lemma roll_balanced_dice_outcome w queue q roll queue' q' w' :
  heap w !! queue = Some q → Forall is_outcome q →
  roll_balanced_dice queue w = inr ((roll, queue'), w') →
  heap w' !! queue' = Some q' →
  is_outcome roll ∧ Forall is_outcome q'.
Proof.
  intros Hq Hall Hroll Hq'.
  destruct (roll_balanced_dice_cases w queue q Hq)
    as (roll0 & queue0 & q0 & w0 & Hroll0 & Hq0 & Hcase).
  rewrite Hroll in Hroll0. injection Hroll0 as <- <- <-.
  rewrite Hq' in Hq0. injection Hq0 as <-.
  assert (Forall is_outcome (q' ++ [roll])) as Hsnoc.
  { destruct Hcase as [(_ & _ & _ & Hp)|(-> & _)]; [|done].
    rewrite Hp. apply expansion_outcomes. }
  apply Forall_app in Hsnoc as [? Hroll1]. split; [|done].
  by inversion Hroll1.
Qed.

(** [n] balanced rolls from a queue in the store: the loop completes, and
    what it threads on is again a queue in the store. *)
Lemma steps_balanced n : ∀ w queue q,
  heap w !! queue = Some q →
  ∃ results queue' q' w',
    steps (Unary roll_balanced_dice) n ([], [queue]) w =
      inr ((results, [queue']), w')
    ∧ heap w' !! queue' = Some q'
    ∧ length results = n
    ∧ (length (heap w) ≤ length (heap w'))%nat
    ∧ (Forall is_outcome q → Forall is_outcome results ∧ Forall is_outcome q').
Proof.
  induction n as [|n IH]; intros w queue q Hq.
  - exists [], queue, q, w. by split_and!.
  - destruct (roll_balanced_dice_cases w queue q Hq)
      as (roll & queue1 & q1 & w1 & Hroll & Hq1 & Hcase).
    destruct (IH w1 queue1 q1 Hq1)
      as (results & queue' & q' & w' & Hsteps & Hq' & Hlen & Hgrow & Hout).
    exists (roll :: results), queue', q', w'. split_and!.
    + by rewrite steps_S, call_unary, Hroll, Hsteps.
    + done.
    + cbn. by rewrite Hlen.
    + etrans; [|exact Hgrow].
      destruct Hcase as [(_ & _ & -> & _)|(_ & _ & _ & ->)].
      * rewrite length_app. lia.
      * by rewrite length_insert.
    + intros Hall.
      destruct (roll_balanced_dice_outcome _ _ _ _ _ _ _ Hq Hall Hroll Hq1)
        as [? Hall1].
      destruct (Hout Hall1). split; [by constructor|done].
Qed.

(** *** Standard rolls *)

Lemma random_randint_eq a b w :
  random_randint a b w =
    inr ((randint a b (rng w)).1, mkWorld (randint a b (rng w)).2 (heap w)).
Proof. unfold random_randint. by destruct (randint a b (rng w)). Qed.

Lemma roll_standard_dice_outcome w :
  ∃ roll w', roll_standard_dice w = inr (roll, w')
             ∧ is_outcome roll ∧ heap w' = heap w.
Proof.
  unfold roll_standard_dice.
  erewrite bind_inr by apply random_randint_eq.
  erewrite bind_inr by apply random_randint_eq.
  eexists _, _. split; [done|]. cbn [rng heap]. split; [|done].
  pose proof (randint_range 1 6 (rng w)).
  pose proof (randint_range 1 6 (randint 1 6 (rng w)).2).
  unfold is_outcome. lia.
Qed.

Lemma steps_standard n : ∀ w,
  ∃ results w',
    steps (Nullary roll_standard_dice) n ([], []) w = inr ((results, []), w')
    ∧ length results = n
    ∧ Forall is_outcome results
    ∧ heap w' = heap w.
Proof.
  induction n as [|n IH]; intros w.
  - exists [], w. by split_and!.
  - destruct (roll_standard_dice_outcome w) as (roll & w1 & Hroll & Hout & Hh1).
    destruct (IH w1) as (results & w' & Hsteps & Hlen & Hall & Hh).
    exists (roll :: results), w'. split_and!.
    + by rewrite steps_S, call_nullary, Hroll, Hsteps.
    + cbn. by rewrite Hlen.
    + by constructor.
    + congruence.
Qed.

(** The loop returns what the roll function itself returns, call after
    call. *)
Lemma steps_nullary_rolls (f : M W Z) n : ∀ w results args' w',
  steps (Nullary f) n ([], []) w = inr ((results, args'), w') →
  results = nullary_rolls f n w.
Proof.
  induction n as [|n IH]; intros w results args' w'.
  - cbn. unfold ret. congruence.
  - rewrite steps_S, call_nullary. cbn [nullary_rolls].
    destruct (f w) as [|[roll w1]]; [done|].
    destruct (steps (Nullary f) n ([], []) w1) as [|[[results1 args1] w2]] eqn:Hn;
      [done|].
    intros [= <- <- <-]. f_equal. by eapply IH.
Qed.

Lemma steps_unary_rolls (f : loc → M W (Z * loc)) n : ∀ queue w results args' w',
  steps (Unary f) n ([], [queue]) w = inr ((results, args'), w') →
  results = unary_rolls f n queue w.
Proof.
  induction n as [|n IH]; intros queue w results args' w'.
  - cbn. unfold ret. congruence.
  - rewrite steps_S, call_unary. cbn [unary_rolls].
    destruct (f queue w) as [|[[roll queue1] w1]]; [done|].
    destruct (steps (Unary f) n ([], [queue1]) w1)
      as [|[[results1 args1] w2]] eqn:Hn; [done|].
    intros [= <- <- <-]. f_equal. by eapply IH.
Qed.

(** C3 - For [n >= 1], simulating [n] rolls returns exactly [n] values,
    each between 2 and 12, and they are the values the roller itself
    returns in [n] successive calls, in that order, none dropped: the
    values of [roll_standard_dice()] called [n] times, and the values of
    [roll_balanced_dice(queue)] called [n] times on the queue threaded
    from call to call, started on any queue of outcomes. *)
Theorem simulate_rolls_outcomes (n : Z) w :
  1 ≤ n →
  (∃ results w',
     simulate_rolls (Nullary roll_standard_dice) n [] w = inr (results, w')
     ∧ Z.of_nat (length results) = n
     ∧ Forall is_outcome results
     ∧ results = produced (Nullary roll_standard_dice) (Z.to_nat n) [] w
     ∧ results = nullary_rolls roll_standard_dice (Z.to_nat n) w)
  ∧ (∀ queue q,
       heap w !! queue = Some q → Forall is_outcome q →
       ∃ results w',
         simulate_rolls (Unary roll_balanced_dice) n [queue] w = inr (results, w')
         ∧ Z.of_nat (length results) = n
         ∧ Forall is_outcome results
         ∧ results = produced (Unary roll_balanced_dice) (Z.to_nat n) [queue] w
         ∧ results = unary_rolls roll_balanced_dice (Z.to_nat n) queue w).
Proof.
  intros Hn. split.
  - destruct (steps_standard (Z.to_nat n) w) as (results & w' & Hsteps & Hlen & Hall & _).
    exists results, w'. split_and!.
    + by rewrite simulate_rolls_loop, simulate_loop_steps, Hsteps.
    + lia.
    + done.
    + by eapply steps_produced.
    + by eapply steps_nullary_rolls.
  - intros queue q Hq Hall.
    destruct (steps_balanced (Z.to_nat n) w queue q Hq)
      as (results & queue' & q' & w' & Hsteps & _ & Hlen & _ & Hout).
    exists results, w'. split_and!.
    + by rewrite simulate_rolls_loop, simulate_loop_steps, Hsteps.
    + lia.
    + by apply Hout.
    + by eapply steps_produced.
    + by eapply steps_unary_rolls.
Qed.

(** C4 - Self-healing.  A balanced roll on any queue in the store
    returns: on an empty queue it first builds a new list object with a
    full cycle of 36 items and pops from that one; on a non-empty queue it
    pops the last item in place and builds nothing.  Hence [n] balanced
    rolls from any queue complete for every [n], and asking for more rolls
    than the queue holds builds at least one new cycle. *)
Theorem self_healing w queue q :
  heap w !! queue = Some q →
  (∃ roll queue' w',
     roll_balanced_dice queue w = inr ((roll, queue'), w')
     ∧ (q = [] →
        ∃ cycle w1,
          create_balanced_queue EXPECTED_DIST_2_12 w = inr (queue', w1)
          ∧ heap w1 = heap w ++ [cycle]
          ∧ length cycle = 36%nat
          ∧ cycle ≡ₚ expansion EXPECTED_DIST_2_12
          ∧ list_pop queue' w1 = inr (roll, w'))
     ∧ (q ≠ [] →
        queue' = queue ∧ list_pop queue w = inr (roll, w')
        ∧ length (heap w') = length (heap w)))
  ∧ (∀ n : Z, ∃ results w',
       simulate_rolls (Unary roll_balanced_dice) n [queue] w = inr (results, w')
       ∧ length results = Z.to_nat n
       ∧ (Z.of_nat (length q) < n → (length (heap w) < length (heap w'))%nat)).
Proof.
  intros Hq. split.
  - destruct (roll_balanced_dice_cases w queue q Hq)
      as (roll & queue' & q' & w' & Hroll & Hq' & Hcase).
    exists roll, queue', w'. split; [done|].
    destruct Hcase as [(-> & -> & Hh & Hp)|(-> & -> & Hg & Hh)]; split; try done.
    + intros _.
      destruct (roll_balanced_dice_rebuild w queue Hq)
        as (roll0 & queue0 & cycle & w1 & w0 & Hc & _ & Hh1 & Hlen & Hpc & Hpop & Hr).
      rewrite Hroll in Hr. injection Hr as <- <- <-.
      by exists cycle, w1.
    + intros Hnil. by destruct q'.
    + intros _. split; [done|]. split.
      * rewrite (list_pop_snoc _ _ _ _ Hq). destruct w'; cbn in *. by subst.
      * by rewrite Hh, length_insert.
  - intros n.
    destruct (Z_le_gt_dec n (Z.of_nat (length q))) as [Hle|Hgt].
    + destruct (steps_balanced (Z.to_nat n) w queue q Hq)
        as (results & queue' & q' & w' & Hsteps & _ & Hlen & _ & _).
      exists results, w'. split_and!; [|done|lia].
      by rewrite simulate_rolls_loop, simulate_loop_steps, Hsteps.
    + (* the first [len(q)] rolls empty the queue, the next one rebuilds *)
      pose proof (steps_lifo queue q [] w Hq) as Hdrain.
      set (w1 := mkWorld (rng w) (<[queue := []]> (heap w))) in *.
      assert (heap w1 !! queue = Some []) as Hq1.
      { cbn [heap w1]. apply list_lookup_insert_eq. by eapply lookup_lt_Some. }
      destruct (roll_balanced_dice_cases w1 queue [] Hq1)
        as (roll & queue2 & q2 & w2 & Hroll & Hq2 & Hcase).
      destruct Hcase as [(_ & _ & Hh2 & _)|(Hnil & _)];
        [|by destruct q2].
      destruct (steps_balanced (Z.to_nat n - length q - 1) w2 queue2 q2 Hq2)
        as (results & queue' & q' & w' & Hsteps & _ & Hlen & Hgrow & _).
      exists (reverse q ++ roll :: results), w'. split_and!.
      * rewrite simulate_rolls_loop, simulate_loop_steps.
        replace (Z.to_nat n) with
          (length q + S (Z.to_nat n - length q - 1))%nat by lia.
        by rewrite steps_add, Hdrain, steps_S, call_unary, Hroll, Hsteps.
      * rewrite length_app, length_reverse. cbn [length]. lia.
      * intros _. rewrite Hh2, length_app in Hgrow. cbn [heap w1] in Hgrow.
        rewrite length_insert in Hgrow. cbn [length] in Hgrow. lia.
Qed.

(** *** No rolls *)

Lemma simulate_loop_nonpositive rf (n : Z) args w :
  n ≤ 0 → simulate_loop rf n args w = inr (([], args), w).
Proof.
  intros Hn. rewrite simulate_loop_steps.
  by replace (Z.to_nat n) with 0%nat by lia.
Qed.

(** C8 - Zero rolls.  [simulate_rolls] with [num_rolls = 0] returns the
    empty list, whatever the roller and the arguments; the loop body is
    never entered, so the threaded arguments, every list object in the
    store (the queue among them) and the generator are as before. *)
Theorem zero_rolls_untouched rf args w :
  simulate_rolls rf 0 args w = inr ([], w)
  ∧ simulate_loop rf 0 args w = inr (([], args), w)
  ∧ produced rf (Z.to_nat 0) args w = [].
Proof. by split_and!. Qed.

(** *** Building a cycle *)

(** C6 - [create_balanced_queue] on the distribution table returns a new
    list object holding a permutation of the weighted expansion of the
    table: 36 items, each value [v] exactly [weight v] times, whatever the
    generator and its state. *)
Theorem create_balanced_queue_cycle w :
  ∃ queue cycle w',
    create_balanced_queue EXPECTED_DIST_2_12 w = inr (queue, w')
    ∧ queue = length (heap w)
    ∧ heap w' = heap w ++ [cycle]
    ∧ cycle ≡ₚ expansion EXPECTED_DIST_2_12
    ∧ length cycle = 36%nat
    ∧ (∀ v, py_count v cycle = weight v)
    ∧ (∀ v, is_outcome v → 1 ≤ py_count v cycle)
    ∧ Forall is_outcome cycle.
Proof.
  eexists _, _, _. split; [apply create_balanced_queue_eq|].
  cbn [heap]. pose proof (shuffle_perm (expansion EXPECTED_DIST_2_12) (rng w)) as Hp.
  split_and!; try done.
  - rewrite (Permutation_length Hp). apply expansion_length.
  - intros v. rewrite (py_count_perm _ _ _ Hp). apply count_expansion.
  - intros v Hv. rewrite (py_count_perm _ _ _ Hp), count_expansion.
    unfold is_outcome in Hv. table_cases v; try done. lia.
  - rewrite Hp. apply expansion_outcomes.
Qed.

(** *** The queue between rolls *)

(** Rolling keeps a queue reachable. *)
Lemma reachable_steps n : ∀ queue w results queue' w',
  reachable queue w →
  steps (Unary roll_balanced_dice) n ([], [queue]) w =
    inr ((results, [queue']), w') →
  reachable queue' w'.
Proof.
  induction n as [|n IH]; intros queue w results queue' w' Hreach.
  - cbn. unfold ret. by intros [= _ <- <-].
  - rewrite steps_S, call_unary.
    destruct (roll_balanced_dice queue w) as [|[[roll queue1] w1]] eqn:Hroll;
      [done|].
    destruct (steps _ n ([], [queue1]) w1) as [|[[results1 args1] w2]] eqn:Hn;
      [done|].
    intros [= _ -> <-]. eapply IH; [|exact Hn].
    by eapply reachable_roll.
Qed.

Lemma reachable_simulate_loop (n : Z) queue w results queue' w' :
  reachable queue w →
  simulate_loop (Unary roll_balanced_dice) n [queue] w =
    inr ((results, [queue']), w') →
  reachable queue' w'.
Proof. rewrite simulate_loop_steps. apply reachable_steps. Qed.

(** C5 - Balanced Queue invariant.  In every reachable state the queue
    holds a sub-multiset of one full cycle: no value [v] more often than
    [weight v].  It is a depleting fragment: while it is not empty, a
    roll takes exactly the value it returns off the end of the same list
    object, draws nothing from the generator and leaves the rest in
    place, and rolling as often as the queue is long returns its items
    and reaches the empty queue.  When the queue is empty, the next roll
    first builds a full cycle of 36 items in a new list object and then
    pops its roll from that one, leaving 35. *)
Theorem balanced_queue_invariant queue w :
  reachable queue w →
  ∃ q,
    heap w !! queue = Some q
    ∧ q ⊆+ expansion EXPECTED_DIST_2_12
    ∧ (∀ v, py_count v q ≤ weight v)
    ∧ (q = [] →
       ∃ roll queue' cycle w1 w',
         create_balanced_queue EXPECTED_DIST_2_12 w = inr (queue', w1)
         ∧ heap w1 !! queue' = Some cycle
         ∧ length cycle = 36%nat
         ∧ cycle ≡ₚ expansion EXPECTED_DIST_2_12
         ∧ list_pop queue' w1 = inr (roll, w')
         ∧ roll_balanced_dice queue w = inr ((roll, queue'), w')
         ∧ (∃ rest, cycle = rest ++ [roll] ∧ heap w' !! queue' = Some rest)
         ∧ reachable queue' w')
    ∧ (q ≠ [] →
       ∃ roll rest w',
         roll_balanced_dice queue w = inr ((roll, queue), w')
         ∧ q = rest ++ [roll]
         ∧ heap w' !! queue = Some rest
         ∧ rng w' = rng w
         ∧ length (heap w') = length (heap w)
         ∧ reachable queue w')
    ∧ (∃ w0,
         simulate_loop (Unary roll_balanced_dice) (Z.of_nat (length q)) [queue] w
           = inr ((reverse q, [queue]), w0)
         ∧ heap w0 !! queue = Some []
         ∧ reachable queue w0).
Proof.
  intros Hreach.
  assert (∃ q, heap w !! queue = Some q ∧ q ⊆+ expansion EXPECTED_DIST_2_12)
    as (q & Hq & Hsub).
  { clear -Hreach.
    induction Hreach as [w queue w' Hcreate|queue w roll queue' w' _ IH Hroll].
    - rewrite create_balanced_queue_eq in Hcreate. injection Hcreate as <- <-.
      eexists. split; [by apply list_lookup_middle|].
      apply Permutation_submseteq, shuffle_perm.
    - destruct IH as (q & Hq & Hsub).
      destruct (roll_balanced_dice_cases w queue q Hq)
        as (roll0 & queue0 & q' & w0 & Hroll0 & Hq' & Hcase).
      rewrite Hroll in Hroll0. injection Hroll0 as <- <- <-.
      exists q'. split; [done|].
      assert (q' ⊆+ q' ++ [roll]) as Hdrop by by apply submseteq_inserts_r.
      destruct Hcase as [(_ & _ & _ & Hp)|(-> & _)].
      + by rewrite <-Hp.
      + by etrans. }
  pose proof (lookup_lt_Some _ _ _ Hq) as Hlt.
  exists q. split_and!; try done.
  - intros v. rewrite <-count_expansion. by apply submseteq_count.
  - intros ->.
    destruct (roll_balanced_dice_rebuild w queue Hq)
      as (roll & queue' & cycle & w1 & w' & Hc & -> & Hh1 & Hlen & Hp & Hpop & Hr).
    destruct (roll_balanced_dice_cases w queue [] Hq)
      as (roll0 & queue0 & rest & w0 & Hroll0 & Hrest & Hcase).
    rewrite Hr in Hroll0. injection Hroll0 as <- <- <-.
    exists roll, (length (heap w)), cycle, w1, w'. split_and!; try done.
    + rewrite Hh1. by apply list_lookup_middle.
    + exists rest. split; [|done].
      assert (heap w1 !! length (heap w) = Some cycle) as Hcycle
        by (rewrite Hh1; by apply list_lookup_middle).
      destruct cycle as [|x cycle' _] using rev_ind; [done|].
      rewrite (list_pop_snoc _ _ _ _ Hcycle) in Hpop. injection Hpop as -> <-.
      cbn [heap] in Hrest. rewrite list_lookup_insert_eq in Hrest
        by (by eapply lookup_lt_Some).
      by injection Hrest as <-.
    + by eapply reachable_roll.
  - intros Hne.
    destruct (roll_balanced_dice_cases w queue q Hq)
      as (roll & queue' & rest & w' & Hroll & Hrest & Hcase).
    destruct Hcase as [(-> & _)|(-> & -> & Hg & Hh)]; [done|].
    exists roll, rest, w'. split_and!; try done.
    + by rewrite Hh, length_insert.
    + by eapply reachable_roll.
  - pose proof (steps_lifo queue q [] w Hq) as Hdrain.
    eexists. split_and!.
    + rewrite simulate_loop_steps, Nat2Z.id. exact Hdrain.
    + cbn [heap]. by apply list_lookup_insert_eq.
    + eapply reachable_steps; [exact Hreach|exact Hdrain].
Qed.

End CoreProofs.

(** ** The frequency aggregator *)

Lemma py_count_cons v r x :
  py_count v (r :: x) = (if decide (r = v) then 1 else 0) + py_count v x.
Proof.
  unfold py_count. rewrite filter_cons.
  destruct (decide (r = v)); cbn [length]; lia.
Qed.

Lemma py_count_filter_outcome v x :
  is_outcome v → py_count v (filter is_outcome x) = py_count v x.
Proof.
  intros Hv. induction x as [|r x IH]; [done|].
  rewrite filter_cons. destruct (decide (is_outcome r)) as [Hr|Hr].
  - by rewrite !py_count_cons, IH.
  - rewrite py_count_cons, IH. rewrite decide_False; [done|congruence].
Qed.

(** The dictionary comprehension [{i: 0 for i in range(2, 13)}]. *)
Lemma zero_counts_lookup v :
  (list_to_map ((λ i, (i, 0)) <$> py_range2 2 13) : gmap Z Z) !! v =
    if decide (is_outcome v) then Some 0 else None.
Proof.
  table_cases v; try reflexivity.
  rewrite decide_False by (unfold is_outcome; lia).
  change (py_range2 2 13) with [2; 3; 4; 5; 6; 7; 8; 9; 10; 11; 12].
  cbn [fmap list_fmap list_to_map foldr fst snd uncurry].
  rewrite !lookup_insert_ne by done. apply lookup_empty.
Qed.

Section AggregateProofs.
Context {R : Type} `{RandomSource R}.

Abbreviation W := (World R).

Implicit Types (app : @App R) (results : list Z).

(** The loop of [calculate_frequencies] adds to each key present the
    number of times it occurs in [results]; it never raises and never
    touches the program state. *)
Lemma frequencies_loop results : ∀ (f0 : gmap Z Z) app,
  ∃ f : gmap Z Z,
    for_in results
      (λ result (frequencies : gmap Z Z),
         match frequencies !! result with
         | Some n => ret (<[result := n + 1]> frequencies)
         | None => ret frequencies
         end) f0 app = inr (f, app)
    ∧ ∀ v, f !! v = (λ c, c + py_count v results) <$> f0 !! v.
Proof.
  induction results as [|r results IH]; intros f0 app.
  - exists f0. split; [done|]. intros v.
    destruct (f0 !! v) as [c|]; cbn; [|done]. f_equal. unfold py_count. cbn. lia.
  - cbn [for_in].
    destruct (f0 !! r) as [n|] eqn:Hr.
    + destruct (IH (<[r := n + 1]> f0) app) as (f & Hf & Hlookup).
      exists f. split; [by erewrite bind_inr by reflexivity|].
      intros v. rewrite Hlookup, py_count_cons, lookup_insert.
      destruct (decide (r = v)) as [<-|Hne].
      * rewrite Hr. cbn. f_equal. lia.
      * destruct (f0 !! v); cbn; [|done]. f_equal.
    + destruct (IH f0 app) as (f & Hf & Hlookup).
      exists f. split; [by erewrite bind_inr by reflexivity|].
      intros v. rewrite Hlookup, py_count_cons.
      destruct (decide (r = v)) as [<-|Hne].
      * by rewrite Hr.
      * destruct (f0 !! v); cbn; [|done]. f_equal.
Qed.

Lemma calculate_frequencies_lookup results app :
  ∃ f : gmap Z Z,
    calculate_frequencies results app = inr (f, app)
    ∧ ∀ v, f !! v =
           if decide (is_outcome v) then Some (py_count v results) else None.
Proof.
  unfold calculate_frequencies.
  destruct (frequencies_loop results
              (list_to_map ((λ i, (i, 0)) <$> py_range2 2 13)) app)
    as (f & Hf & Hlookup).
  exists f. split; [done|]. intros v.
  rewrite Hlookup, zero_counts_lookup. by destruct (decide (is_outcome v)).
Qed.

(** The table of a list depends on the counts of the outcomes only. *)
Lemma calculate_frequencies_ext results1 results2 app1 app2 f1 f2 :
  (∀ v, is_outcome v → py_count v results1 = py_count v results2) →
  calculate_frequencies results1 app1 = inr (f1, app1) →
  calculate_frequencies results2 app2 = inr (f2, app2) →
  f1 = f2.
Proof.
  intros Hcount H1 H2.
  destruct (calculate_frequencies_lookup results1 app1) as (f1' & H1' & Hl1).
  destruct (calculate_frequencies_lookup results2 app2) as (f2' & H2' & Hl2).
  rewrite H1 in H1'. injection H1' as <-.
  rewrite H2 in H2'. injection H2' as <-.
  apply map_eq. intros v. rewrite Hl1, Hl2.
  destruct (decide (is_outcome v)); [|done]. by rewrite Hcount.
Qed.

(** C7 - Aggregator correctness.  [calculate_frequencies] never raises;
    its result has exactly the keys 2 to 12; the value at a key is the
    number of times the key occurs in [results]; values outside 2..12
    change nothing.  On the empty list all eleven counts are zero, and on
    [[7, 7, 2]] key 2 counts 1, key 7 counts 2 and every other key 0. *)
Theorem aggregator_correct results app :
  (∃ f : gmap Z Z,
     calculate_frequencies results app = inr (f, app)
     ∧ dom f = list_to_set (py_range2 2 13)
     ∧ (∀ v, is_outcome v → f !! v = Some (py_count v results))
     ∧ (∀ v, ¬ is_outcome v → f !! v = None)
     ∧ calculate_frequencies (filter is_outcome results) app = inr (f, app))
  ∧ calculate_frequencies [] app =
      inr (list_to_map [(2, 0); (3, 0); (4, 0); (5, 0); (6, 0); (7, 0);
                        (8, 0); (9, 0); (10, 0); (11, 0); (12, 0)], app)
  ∧ calculate_frequencies [7; 7; 2] app =
      inr (list_to_map [(2, 1); (3, 0); (4, 0); (5, 0); (6, 0); (7, 2);
                        (8, 0); (9, 0); (10, 0); (11, 0); (12, 0)], app).
Proof.
  split_and!; [|reflexivity|reflexivity].
  destruct (calculate_frequencies_lookup results app) as (f & Hf & Hlookup).
  exists f. split_and!.
  - done.
  - apply set_eq. intros v. rewrite elem_of_dom, Hlookup.
    change (py_range2 2 13) with [2; 3; 4; 5; 6; 7; 8; 9; 10; 11; 12].
    rewrite elem_of_list_to_set. unfold is_outcome.
    destruct (decide (2 ≤ v ≤ 12)) as [Hv|Hv].
    + split; [intros _|by eauto]. set_unfold. lia.
    + split; [by intros [? ?]|]. intros Hin. exfalso. apply Hv.
      set_unfold. lia.
  - intros v Hv. by rewrite Hlookup, decide_True.
  - intros v Hv. by rewrite Hlookup, decide_False.
  - destruct (calculate_frequencies_lookup (filter is_outcome results) app)
      as (f' & Hf' & Hlookup').
    rewrite Hf'. do 2 f_equal.
    eapply calculate_frequencies_ext; [|exact Hf'|exact Hf].
    intros v Hv. by apply py_count_filter_outcome.
Qed.

(** C9 - Determinism of aggregation.  Two calls of
    [calculate_frequencies] on the same list, one after the other, return
    the same table and leave the program state as it was; the table does
    not depend on the state the call is made in. *)
Theorem aggregation_deterministic results app app' :
  ∃ f : gmap Z Z,
    (f1 ← calculate_frequencies results;
     f2 ← calculate_frequencies results;
     ret (f1, f2)) app = inr ((f, f), app)
    ∧ calculate_frequencies results app = inr (f, app)
    ∧ calculate_frequencies results app' = inr (f, app').
Proof.
  destruct (calculate_frequencies_lookup results app) as (f & Hf & _).
  destruct (calculate_frequencies_lookup results app') as (f' & Hf' & _).
  assert (f = f') as <- by (by eapply calculate_frequencies_ext).
  exists f. split_and!; try done.
  by rewrite (bind_inr _ _ _ _ _ Hf), (bind_inr _ _ _ _ _ Hf).
Qed.

End AggregateProofs.

(** ** Whole cycles *)

Section CycleProofs.
Context {R : Type} `{RandomSource R}.

Abbreviation W := (World R).

Implicit Types (w : W) (q : list Z) (queue : loc).

(** 36 rolls from a cycle boundary, that is from a full queue or from an
    empty one, return one full cycle and end at a cycle boundary. *)
Lemma steps_cycle w queue q :
  heap w !! queue = Some q →
  q = [] ∨ q ≡ₚ expansion EXPECTED_DIST_2_12 →
  ∃ results queue' w',
    steps (Unary roll_balanced_dice) 36 ([], [queue]) w =
      inr ((results, [queue']), w')
    ∧ results ≡ₚ expansion EXPECTED_DIST_2_12
    ∧ heap w' !! queue' = Some [].
Proof.
  intros Hq [->|Hp].
  - destruct (roll_balanced_dice_cases w queue [] Hq)
      as (roll & queue1 & q1 & w1 & Hroll & Hq1 & Hcase).
    destruct Hcase as [(_ & _ & _ & Hp)|(Hnil & _)]; [|by destruct q1].
    assert (length q1 = 35%nat) as Hlen.
    { apply Permutation_length in Hp.
      rewrite length_app, expansion_length in Hp. cbn in Hp. lia. }
    eexists (roll :: reverse q1), queue1, _. split_and!.
    + rewrite steps_S, call_unary, Hroll, <-Hlen.
      by rewrite (steps_lifo queue1 q1 [] w1 Hq1).
    + by rewrite <-reverse_snoc, reverse_Permutation.
    + cbn [heap]. apply list_lookup_insert_eq. by eapply lookup_lt_Some.
  - eexists (reverse q), queue, _. split_and!.
    + rewrite <-expansion_length, <-(Permutation_length Hp).
      by apply (steps_lifo queue q []).
    + by rewrite reverse_Permutation.
    + cbn [heap]. apply list_lookup_insert_eq. by eapply lookup_lt_Some.
Qed.

(** [k] whole cycles from a cycle boundary end at a cycle boundary. *)
Lemma steps_cycles k : ∀ w queue q,
  heap w !! queue = Some q →
  q = [] ∨ q ≡ₚ expansion EXPECTED_DIST_2_12 →
  ∃ results queue' q' w',
    steps (Unary roll_balanced_dice) (k * 36) ([], [queue]) w =
      inr ((results, [queue']), w')
    ∧ length results = (k * 36)%nat
    ∧ heap w' !! queue' = Some q'
    ∧ (q' = [] ∨ q' ≡ₚ expansion EXPECTED_DIST_2_12).
Proof.
  induction k as [|k IH]; intros w queue q Hq Hb.
  - by exists [], queue, q, w.
  - destruct (steps_cycle w queue q Hq Hb)
      as (results1 & queue1 & w1 & Hsteps1 & Hp1 & Hq1).
    destruct (IH w1 queue1 [] Hq1 (or_introl eq_refl))
      as (results2 & queue2 & q2 & w2 & Hsteps2 & Hlen2 & Hq2 & Hb2).
    exists (results1 ++ results2), queue2, q2, w2. split_and!; try done.
    + change (S k * 36)%nat with (36 + k * 36)%nat.
      by rewrite steps_add, Hsteps1, Hsteps2.
    + rewrite length_app, Hlen2, (Permutation_length Hp1), expansion_length.
      lia.
Qed.

(** C1 - Cycle fidelity.  Build a queue with [create_balanced_queue] and
    roll through [k] whole cycles and one more.  The 36 rolls of that last
    cycle (which starts at a cycle boundary) hold every value [v] exactly
    [weight v] times: 7 six times, 2 once, 12 once; and
    [calculate_frequencies] of them is the distribution table.  This
    holds for every generator, in every state. *)
Theorem cycle_fidelity w (k : nat) (app : @App R) :
  ∃ queue w1 results w2,
    create_balanced_queue EXPECTED_DIST_2_12 w = inr (queue, w1)
    ∧ simulate_rolls (Unary roll_balanced_dice) (36 * (Z.of_nat k + 1)) [queue] w1
        = inr (results, w2)
    ∧ let cycle := take 36 (drop (36 * k) results) in
      length cycle = 36%nat
      ∧ (∀ v, py_count v cycle = weight v)
      ∧ py_count 7 cycle = 6 ∧ py_count 2 cycle = 1 ∧ py_count 12 cycle = 1
      ∧ calculate_frequencies cycle app =
          inr (list_to_map EXPECTED_DIST_2_12, app).
Proof.
  pose proof (create_balanced_queue_eq EXPECTED_DIST_2_12 w) as Hcreate.
  set (w1 := mkWorld _ _) in Hcreate. exists (length (heap w)), w1.
  assert (heap w1 !! length (heap w) =
            Some (shuffle (expansion EXPECTED_DIST_2_12) (rng w)).1) as Hq
    by (by apply list_lookup_middle).
  destruct (steps_cycles k w1 _ _ Hq (or_intror (shuffle_perm _ _)))
    as (results1 & queue1 & q1 & w1' & Hsteps1 & Hlen1 & Hq1 & Hb1).
  destruct (steps_cycle w1' queue1 q1 Hq1 Hb1)
    as (results2 & queue2 & w2 & Hsteps2 & Hp2 & _).
  exists (results1 ++ results2), w2. split; [done|]. split.
  { rewrite simulate_rolls_loop, simulate_loop_steps.
    replace (Z.to_nat (36 * (Z.of_nat k + 1))) with (k * 36 + 36)%nat by lia.
    by rewrite steps_add, Hsteps1, Hsteps2. }
  assert (take 36 (drop (36 * k) (results1 ++ results2)) = results2) as ->.
  { rewrite drop_app_length' by lia. apply take_ge.
    rewrite (Permutation_length Hp2), expansion_length. lia. }
  assert (∀ v, py_count v results2 = weight v) as Hcount.
  { intros v. rewrite (py_count_perm _ _ _ Hp2). apply count_expansion. }
  cbn zeta. split_and!; try done.
  - by rewrite (Permutation_length Hp2).
  - destruct (calculate_frequencies_lookup results2 app) as (f & Hf & Hlookup).
    rewrite Hf. do 2 f_equal. apply map_eq. intros v.
    by rewrite Hlookup, weight_lookup, Hcount.
Qed.

End CycleProofs.

(** ** The overlay bookkeeping of the window *)

Section OverlayProofs.
Context {R : Type} `{RandomSource R}.

Implicit Types (app : @App R).


(** The clear button brings the window back to the state with nothing
    plotted: the flag is reset, the record of plotted dice is empty, the
    overlay box is unchecked, axes and text are empty. *)
Lemma clear_graph_resets app :
  ∃ app',
    clear_graph app = inr ((), app')
    ∧ overlay_active (self app') = false
    ∧ overlay_choice (self app') = false
    ∧ plotted_dice (self app') = Some ∅
    ∧ ax (self app') = empty_axes
    ∧ canvas (self app') = empty_axes
    ∧ text_freq (self app') = mkText DISABLED ""
    ∧ world app' = world app.
Proof. eexists. split; [reflexivity|]. by split_and!. Qed.


Lemma text_only_config st : @text_only R (text_config st).
Proof. intros app. by eexists. Qed.

Lemma text_only_delete_all : @text_only R text_delete_all.
Proof.
  intros [g w]. unfold text_delete_all, modify_self. cbn [self world].
  destruct (text_state (text_freq g)) eqn:Hst; [by eexists|].
  exists (text_freq g). by destruct g.
Qed.

Lemma text_only_insert_end chars : @text_only R (text_insert_end chars).
Proof.
  intros [g w]. unfold text_insert_end, modify_self. cbn [self world].
  destruct (text_state (text_freq g)) eqn:Hst; [by eexists|].
  exists (text_freq g). by destruct g.
Qed.

Lemma text_only_ret : @text_only R (ret ()).
Proof. intros [g w]. exists (text_freq g). by destruct g. Qed.

Lemma text_only_bind m k :
  text_only m → text_only k → @text_only R (bind m (λ _, k)).
Proof.
  intros Hm Hk app. destruct (Hm app) as (t1 & H1).
  destruct (Hk (mkApp (set_text_freq t1 (self app)) (world app))) as (t2 & H2).
  exists t2. by rewrite (bind_inr _ _ _ _ _ H1), H2.
Qed.

Lemma text_only_when c m : text_only m → @text_only R (when c m).
Proof. destruct c; [done|]. intros _. apply text_only_ret. Qed.

Lemma text_only_for_in {A} (xs : list A) (body : A → () → M (@App R) ()) :
  (∀ x u, @text_only R (body x u)) → @text_only R (for_in xs body ()).
Proof.
  intros Hbody. induction xs as [|x xs IH]; [apply text_only_ret|].
  cbn [for_in]. intros app. destruct (Hbody x () app) as (t1 & H1).
  destruct (IH (mkApp (set_text_freq t1 (self app)) (world app))) as (t2 & H2).
  exists t2. rewrite (bind_inr _ _ _ _ _ H1). by rewrite H2.
Qed.

Lemma text_only_get_self (k : BalancedDiceGUI → M (@App R) ()) :
  (∀ g, @text_only R (k g)) → @text_only R (bind get_self k).
Proof. intros Hk app. apply Hk. Qed.

Lemma display_frequencies_text_only d : @text_only R (display_frequencies d).
Proof.
  unfold display_frequencies.
  apply text_only_bind; [apply text_only_config|].
  apply text_only_get_self. intros g.
  apply text_only_bind; [apply text_only_when, text_only_delete_all|].
  apply text_only_bind; [|apply text_only_config].
  apply text_only_when.
  apply text_only_for_in. intros [dice_type frequencies] _.
  apply text_only_bind; [apply text_only_insert_end|].
  apply text_only_bind; [|apply text_only_insert_end].
  apply text_only_for_in. intros [number frequency] _.
  apply text_only_insert_end.
Qed.

Lemma bind_assoc {S A B C} (m : M S A) (f : A → M S B) (g : B → M S C) s :
  bind (bind m f) g s = bind m (λ a, bind (f a) g) s.
Proof. unfold bind. by destruct (m s) as [|[??]]. Qed.

Lemma in_world_inr {A} (m : M (World R) A) app a w' :
  m (world app) = inr (a, w') → in_world m app = inr (a, mkApp (self app) w').
Proof. unfold in_world. by intros ->. Qed.

(** With the overlay flag set and the overlay box unchecked, pressing
    the button with the standard dice selected shows the "Clear
    required" box and then goes on as if nothing had been plotted: the
    flag and the record of plotted dice are reset, [n] new rolls are
    simulated and their bars are the only ones on the axes. *)
Lemma start_simulation_conflict_unchecked app n :
  entry_rolls (self app) = Some n → 0 < n →
  overlay_active (self app) = true →
  overlay_choice (self app) = false →
  dice_choice (self app) = "Standard" →
  ∃ app' standard_results,
    start_simulation app = inr ((), app')
    ∧ dialogs (self app') = dialogs (self app) ++ [clear_required]
    ∧ overlay_active (self app') = false
    ∧ plotted_dice (self app') = Some {["Standard"]}
    ∧ Z.of_nat (length standard_results) = n
    ∧ bars (ax (self app')) =
        [mkBars "Standard dice"
                ((λ i, (i, py_count i standard_results)) <$> py_range2 2 13)].
Proof.
  intros Hn Hpos Hactive Hchoice Hdice.
  destruct app as [[active entry dice choice axes cv txt plotted dlg] w].
  cbn in Hn, Hactive, Hchoice, Hdice. subst active choice dice entry.
  destruct (steps_standard (Z.to_nat n) w)
    as (results & w' & Hsteps & Hlen & _ & _).
  assert (simulate_rolls (Nullary roll_standard_dice) n [] w = inr (results, w'))
    as Hsim by (by rewrite simulate_rolls_loop, simulate_loop_steps, Hsteps).
  unfold start_simulation. unfold bind at 1. cbn [get_self self entry_rolls].
  rewrite bool_decide_eq_false_2 by lia.
  do 3 (erewrite bind_inr by reflexivity).
  cbn [self plotted_dice set_plotted_dice set_overlay_active set_ax set_dialogs
       dice_choice overlay_choice].
  rewrite (bool_decide_eq_false_2 (Some ∅ = None)) by done.
  erewrite bind_inr by reflexivity.
  rewrite (bool_decide_eq_true_2 ("Standard" = "Standard")) by done.
  rewrite !bind_assoc.
  erewrite bind_inr by reflexivity.
  cbn [self plotted_dice set_plotted_dice default].
  rewrite (bool_decide_eq_true_2 ("Standard" ∉ (∅ : gset string)))
    by apply not_elem_of_empty.
  rewrite !bind_assoc.
  erewrite bind_inr by (apply in_world_inr; exact Hsim).
  rewrite !bind_assoc.
  match goal with
  | |- context [bind (calculate_frequencies results) _ ?s] =>
      destruct (calculate_frequencies_lookup results s) as (f & Hf & _)
  end.
  rewrite (bind_inr _ _ _ _ _ Hf).
  do 4 (rewrite ?bind_assoc; erewrite bind_inr by reflexivity).
  match goal with
  | |- context [bind (display_frequencies ?d) _ ?s] =>
      destruct (display_frequencies_text_only d s) as (t & Ht)
  end.
  rewrite (bind_inr _ _ _ _ _ Ht).
  eexists _, results. split; [reflexivity|].
  cbn. split_and!; try done. lia.
Qed.

End OverlayProofs.

(** C2 - Overlay conflict.  After [two_series_session] the overlay flag
    is set and both dice are recorded as plotted.  The user unchecks the
    overlay box and presses the button without clearing: the "Clear
    required" box is shown, and yet the axes are cleared, the flag and
    the record of plotted dice are reset, three new standard rolls are
    drawn from the generator and plotted, and the frequency text is
    replaced. *)
Theorem overlay_conflict_not_rejected :
  ∃ app app',
    two_series_session fresh_window = inr ((), app)
    ∧ overlay_active (self app) = true
    ∧ plotted_dice (self app) = Some {["Standard"; "Balanced"]}
    ∧ bar_label <$> bars (ax (self app)) = ["Standard dice"; "Balanced dice"]
    ∧ dialogs (self app) = []
    ∧ (user_checks_overlay false;; start_simulation) app = inr ((), app')
    ∧ dialogs (self app') = [clear_required]
    ∧ overlay_active (self app') = false
    ∧ plotted_dice (self app') = Some {["Standard"]}
    ∧ bar_label <$> bars (ax (self app')) = ["Standard dice"]
    ∧ ax (self app') ≠ ax (self app)
    ∧ text_freq (self app') ≠ text_freq (self app)
    ∧ rng (world app') ≠ rng (world app).
Proof.
  eexists _, _. split; [vm_compute; reflexivity|].
  split; [reflexivity|]. split; [vm_compute; reflexivity|].
  split; [reflexivity|]. split; [reflexivity|].
  split; [vm_compute; reflexivity|].
  split; [reflexivity|]. split; [reflexivity|].
  split; [vm_compute; reflexivity|]. split; [reflexivity|].
  split_and!; vm_compute; discriminate.
Qed.

(** ** The program on the tape generator *)

Example standard_rolls_on_tape :
  simulate_rolls (Nullary roll_standard_dice) 3 [] demo_world =
    inr ([6; 7; 10], mkWorld (drop 6 demo_tape) []).
Proof. reflexivity. Qed.

Example first_cycle_on_tape :
  create_balanced_queue EXPECTED_DIST_2_12 demo_world =
    inr (0%nat, first_cycle_world).
Proof. vm_compute. reflexivity. Qed.

(** Two rolls on a queue of one item: the caller's list object is
    emptied in place, the second roll comes from a new list object. *)
Example rebuild_on_tape :
  simulate_loop (Unary roll_balanced_dice) 2 [0%nat] (mkWorld demo_tape [[5]]) =
    inr (([5; 4], [1%nat]),
         mkWorld (rng first_cycle_world)
                 [[]; [10; 8; 8; 6; 6; 8; 2; 6; 6; 7; 6; 7; 7; 7; 7; 9; 11; 8;
                       7; 9; 9; 8; 5; 10; 5; 9; 12; 10; 5; 3; 5; 4; 11; 4; 3]]).
Proof. vm_compute. reflexivity. Qed.

(** Without the test for the empty queue the pop would raise. *)
Example pop_from_empty_raises :
  list_pop 0%nat empty_queue_world = inl IndexError.
Proof. reflexivity. Qed.

Lemma lifo_pop_order_witness :
  heap short_queue_world !! 0%nat = Some [4; 7; 9; 2]
  ∧ 1 ≤ 3 ≤ Z.of_nat (length [4; 7; 9; 2])
  ∧ simulate_rolls (Unary roll_balanced_dice) 3 [0%nat] short_queue_world =
      inr ([2; 9; 7], mkWorld demo_tape [[4]]).
Proof.
  split; [reflexivity|]. split; [cbn; lia|].
  apply (lifo_pop_order short_queue_world 0%nat [4; 7; 9; 2] 3);
    [reflexivity|cbn; lia].
Defined.

Lemma simulate_rolls_outcomes_witness :
  1 ≤ 2
  ∧ heap short_queue_world !! 0%nat = Some [4; 7; 9; 2]
  ∧ Forall is_outcome [4; 7; 9; 2]
  ∧ (∃ results w',
       simulate_rolls (Nullary roll_standard_dice) 2 [] short_queue_world
         = inr (results, w')
       ∧ Z.of_nat (length results) = 2
       ∧ Forall is_outcome results
       ∧ results = nullary_rolls roll_standard_dice 2 short_queue_world
       ∧ results = [6; 7])
  ∧ (∃ results w',
       simulate_rolls (Unary roll_balanced_dice) 2 [0%nat] short_queue_world
         = inr (results, w')
       ∧ Z.of_nat (length results) = 2
       ∧ Forall is_outcome results
       ∧ results = unary_rolls roll_balanced_dice 2 0%nat short_queue_world
       ∧ results = [2; 9]).
Proof.
  assert (Forall is_outcome [4; 7; 9; 2]) as Hall
    by (repeat constructor; unfold is_outcome; lia).
  split; [lia|]. split; [reflexivity|]. split; [exact Hall|].
  destruct (simulate_rolls_outcomes 2 short_queue_world) as [Hstd Hbal]; [lia|].
  split.
  - destruct Hstd as (results & w' & Hsim & Hlen & Hout & _ & Hrolls).
    exists results, w'.
    split; [exact Hsim|]. split; [exact Hlen|]. split; [exact Hout|].
    split; [exact Hrolls|]. rewrite Hrolls. reflexivity.
  - destruct (Hbal 0%nat [4; 7; 9; 2]) as (results & w' & Hsim & Hlen & Hout & _ & Hrolls);
      [reflexivity|exact Hall|].
    exists results, w'.
    split; [exact Hsim|]. split; [exact Hlen|]. split; [exact Hout|].
    split; [exact Hrolls|]. rewrite Hrolls. reflexivity.
Defined.

Lemma self_healing_witness :
  heap empty_queue_world !! 0%nat = Some []
  ∧ (∃ roll queue' w',
       roll_balanced_dice 0%nat empty_queue_world = inr ((roll, queue'), w')
       ∧ ∃ cycle w1,
           create_balanced_queue EXPECTED_DIST_2_12 empty_queue_world
             = inr (queue', w1)
           ∧ heap w1 = heap empty_queue_world ++ [cycle]
           ∧ length cycle = 36%nat
           ∧ cycle ≡ₚ expansion EXPECTED_DIST_2_12
           ∧ list_pop queue' w1 = inr (roll, w'))
  ∧ ∀ n : Z, ∃ results w',
      simulate_rolls (Unary roll_balanced_dice) n [0%nat] empty_queue_world
        = inr (results, w')
      ∧ length results = Z.to_nat n
      ∧ (Z.of_nat (length (@nil Z)) < n →
         (length (heap empty_queue_world) < length (heap w'))%nat).
Proof.
  split; [reflexivity|].
  destruct (self_healing empty_queue_world 0%nat []) as [Hroll Hall];
    [reflexivity|].
  split; [|exact Hall].
  destruct Hroll as (roll & queue' & w' & Hr & Hempty & _).
  exists roll, queue', w'. split; [exact Hr|]. apply Hempty. reflexivity.
Defined.

Lemma balanced_queue_invariant_witness :
  (reachable 0%nat first_cycle_world
   ∧ ∃ roll rest w',
       roll_balanced_dice 0%nat first_cycle_world = inr ((roll, 0%nat), w')
       ∧ heap first_cycle_world !! 0%nat = Some (rest ++ [roll])
       ∧ heap w' !! 0%nat = Some rest
       ∧ length rest = 35%nat)
  ∧ (reachable 0%nat drained_world
     ∧ heap drained_world !! 0%nat = Some []
     ∧ ∃ roll queue' cycle w1 w',
         create_balanced_queue EXPECTED_DIST_2_12 drained_world = inr (queue', w1)
         ∧ heap w1 !! queue' = Some cycle
         ∧ length cycle = 36%nat
         ∧ roll_balanced_dice 0%nat drained_world = inr ((roll, queue'), w')
         ∧ ∃ rest, cycle = rest ++ [roll] ∧ heap w' !! queue' = Some rest).
Proof.
  assert (reachable 0%nat first_cycle_world) as Hfull.
  { apply (reachable_fresh demo_world). vm_compute. reflexivity. }
  assert (reachable 0%nat drained_world) as Hdrained.
  { eapply (reachable_simulate_loop 36 0%nat first_cycle_world); [exact Hfull|].
    vm_compute. reflexivity. }
  split.
  - split; [exact Hfull|].
    destruct (balanced_queue_invariant 0%nat first_cycle_world Hfull)
      as (q & Hq & _ & _ & _ & Hrolls & _).
    cbn in Hq. injection Hq as <-.
    destruct Hrolls as (roll & rest & w' & Hroll & Heq & Hrest & _); [discriminate|].
    exists roll, rest, w'. split; [exact Hroll|].
    split; [rewrite <-Heq; reflexivity|]. split; [exact Hrest|].
    apply (f_equal length) in Heq. rewrite length_app in Heq. cbn in Heq. lia.
  - split; [exact Hdrained|]. split; [reflexivity|].
    destruct (balanced_queue_invariant 0%nat drained_world Hdrained)
      as (q & Hq & _ & _ & Hempty & _).
    cbn in Hq. injection Hq as <-.
    destruct (Hempty eq_refl)
      as (roll & queue' & cycle & w1 & w' & Hc & Hcycle & Hlen & _ & _ & Hroll & Hrest & _).
    exists roll, queue', cycle, w1, w'.
    split; [exact Hc|]. split; [exact Hcycle|]. split; [exact Hlen|].
    split; [exact Hroll|exact Hrest].
Defined.

(** ** More on the simulation core *)

Lemma py_count_repeat v number count :
  py_count v (py_repeat number count) =
    if decide (number = v) then Z.of_nat (Z.to_nat count) else 0.
Proof.
  unfold py_repeat. induction (Z.to_nat count) as [|n IH].
  - by destruct (decide (number = v)).
  - cbn [replicate]. rewrite py_count_cons, IH.
    destruct (decide (number = v)); lia.
Qed.

Lemma weight_nonneg v : 0 ≤ weight v.
Proof. rewrite <-count_expansion. apply py_count_nonneg. Qed.

Section CoreMore.
Context {R : Type} `{RandomSource R}.

Abbreviation W := (World R).

Implicit Types (w : W) (q : list Z) (queue : loc) (rf : @RollFunction R).

(** A roller called with the wrong number of arguments: the first
    iteration of the loop raises [TypeError].  That is a function of no
    arguments given a queue, and a function of one argument given no
    queue or more than one. *)
Theorem simulate_rolls_arity_mismatch (n : Z) (f : M W Z)
    (g : loc → M W (Z * loc)) (a a' : loc) (args : list loc) w :
  1 ≤ n →
  simulate_rolls (Nullary f) n (a :: args) w = inl TypeError
  ∧ simulate_rolls (Unary g) n [] w = inl TypeError
  ∧ simulate_rolls (Unary g) n (a :: a' :: args) w = inl TypeError.
Proof.
  intros Hn.
  assert (∃ m, Z.to_nat n = S m) as [m Hm] by (exists (Z.to_nat n - 1)%nat; lia).
  split_and!; rewrite simulate_rolls_loop, simulate_loop_steps, Hm, steps_S;
    reflexivity.
Qed.

(** Simulating [a + b] rolls is simulating [a] rolls and then [b] more
    with the arguments the first run has threaded on; the results are
    those of the first run followed by those of the second. *)
Theorem simulate_loop_add rf (a b : Z) args w :
  0 ≤ a → 0 ≤ b →
  simulate_loop rf (a + b) args w =
    match simulate_loop rf a args w with
    | inr ((results1, args1), w1) =>
        match simulate_loop rf b args1 w1 with
        | inr ((results2, args2), w2) => inr ((results1 ++ results2, args2), w2)
        | inl e => inl e
        end
    | inl e => inl e
    end.
Proof.
  intros Ha Hb. rewrite !simulate_loop_steps.
  replace (Z.to_nat (a + b)) with (Z.to_nat a + Z.to_nat b)%nat by lia.
  rewrite steps_add.
  destruct (steps rf (Z.to_nat a) ([], args) w) as [|[[results1 args1] w1]];
    [done|].
  by rewrite simulate_loop_steps.
Qed.

(** Standard rolls never touch a list object: whatever queues the store
    holds, they are as before. *)
Theorem standard_rolls_leave_store (n : Z) w :
  ∃ results w',
    simulate_rolls (Nullary roll_standard_dice) n [] w = inr (results, w')
    ∧ heap w' = heap w.
Proof.
  destruct (steps_standard (Z.to_nat n) w) as (results & w' & Hsteps & _ & _ & Hh).
  exists results, w'. split; [|done].
  by rewrite simulate_rolls_loop, simulate_loop_steps, Hsteps.
Qed.

(** *** What a balanced roll leaves alone *)


(** *** How many cycles a run builds *)

(** From an empty queue, up to 36 rolls build one new list object and
    leave the rest of the cycle in it. *)
Lemma steps_new_cycle (m : nat) w queue :
  heap w !! queue = Some [] →
  (1 ≤ m ≤ 36)%nat →
  ∃ results q' w',
    steps (Unary roll_balanced_dice) m ([], [queue]) w =
      inr ((results, [length (heap w) : loc]), w')
    ∧ heap w' = heap w ++ [q']
    ∧ (length q' + m = 36)%nat.
Proof.
  intros Hq Hm.
  destruct (roll_balanced_dice_cases w queue [] Hq)
    as (roll & queue1 & q1 & w1 & Hroll & Hq1 & Hcase).
  destruct Hcase as [(_ & -> & Hh1 & Hp)|(Hnil & _)]; [|by destruct q1].
  assert (length q1 = 35%nat) as Hlen.
  { apply Permutation_length in Hp.
    rewrite length_app, expansion_length in Hp. cbn in Hp. lia. }
  destruct m as [|m]; [lia|].
  rewrite <-(take_drop (35 - m) q1) in Hq1.
  pose proof (steps_lifo _ _ _ _ Hq1) as Hsteps.
  rewrite length_drop, Hlen in Hsteps.
  replace (35 - (35 - m))%nat with m in Hsteps by lia.
  eexists _, (take (35 - m) q1), _. split_and!.
  - by rewrite steps_S, call_unary, Hroll, Hsteps.
  - cbn [heap]. by rewrite Hh1, insert_snoc.
  - rewrite length_take, Hlen. lia.
Qed.

(** From an empty queue, [m >= 1] rolls build [c] new list objects, where
    [36 * c] is [m] plus what is left in the queue, and less than a whole
    cycle is left. *)
Lemma steps_from_empty (m : nat) : ∀ w queue,
  heap w !! queue = Some [] →
  (1 ≤ m)%nat →
  ∃ (c : nat) results queue' q' w',
    steps (Unary roll_balanced_dice) m ([], [queue]) w =
      inr ((results, [queue']), w')
    ∧ heap w' !! queue' = Some q'
    ∧ length (heap w') = (length (heap w) + c)%nat
    ∧ (length q' + m = 36 * c)%nat
    ∧ (length q' < 36)%nat.
Proof.
  induction (lt_wf m) as [m _ IH]. intros w queue Hq Hm.
  destruct (decide (m ≤ 36)%nat) as [Hle|Hgt].
  - destruct (steps_new_cycle m w queue Hq) as (results & q' & w' & Hsteps & Hh & Hlen);
      [lia|].
    exists 1%nat, results, (length (heap w)), q', w'.
    split_and!; [done| |rewrite Hh, length_app; cbn; lia|lia|lia].
    rewrite Hh. by apply list_lookup_middle.
  - destruct (steps_new_cycle 36 w queue Hq) as (results1 & q1 & w1 & Hsteps1 & Hh1 & Hlen1);
      [lia|].
    assert (q1 = []) as -> by (destruct q1; [done|cbn in Hlen1; lia]).
    assert (heap w1 !! length (heap w) = Some []) as Hq1
      by (rewrite Hh1; by apply list_lookup_middle).
    destruct (IH (m - 36)%nat ltac:(lia) w1 _ Hq1 ltac:(lia))
      as (c & results2 & queue' & q' & w' & Hsteps2 & Hq' & Hh' & Hlen' & Hlt).
    exists (S c), (results1 ++ results2), queue', q', w'.
    split_and!; [|done|rewrite Hh', Hh1, length_app; cbn; lia|lia|done].
    replace m with (36 + (m - 36))%nat at 1 by lia.
    by rewrite steps_add, Hsteps1, Hsteps2.
Qed.

(** [n] balanced rolls on a queue of [len] items build no new cycle when
    [n <= len], and otherwise as many as it takes to serve the [n - len]
    rolls the queue cannot, that is [(n - len + 35) / 36] rounded down.
    Every item built or found is either rolled or still in the queue:
    [len + 36 * cycles = n + left]. *)
Theorem rebuild_count (n : Z) w queue q :
  heap w !! queue = Some q →
  0 ≤ n →
  let len := Z.of_nat (length q) in
  let cycles := if decide (n ≤ len) then 0 else (n - len + 35) / 36 in
  ∃ results queue' q' w',
    simulate_loop (Unary roll_balanced_dice) n [queue] w =
      inr ((results, [queue']), w')
    ∧ heap w' !! queue' = Some q'
    ∧ Z.of_nat (length (heap w')) = Z.of_nat (length (heap w)) + cycles
    ∧ len + 36 * cycles = n + Z.of_nat (length q').
Proof.
  intros Hq Hn len cycles. subst len cycles.
  pose proof (lookup_lt_Some _ _ _ Hq) as Hlt.
  destruct (decide (n ≤ Z.of_nat (length q))) as [Hle|Hgt].
  - set (kept := (length q - Z.to_nat n)%nat).
    pose proof (steps_lifo queue (drop kept q) (take kept q) w) as Hsteps.
    rewrite take_drop, length_drop in Hsteps. specialize (Hsteps Hq).
    replace (length q - kept)%nat with (Z.to_nat n) in Hsteps by (subst kept; lia).
    eexists _, queue, (take kept q), _. split_and!.
    + by rewrite simulate_loop_steps, Hsteps.
    + cbn [heap]. by apply list_lookup_insert_eq.
    + cbn [heap]. rewrite length_insert. lia.
    + rewrite length_take. subst kept. lia.
  - pose proof (steps_lifo queue q [] w Hq) as Hdrain.
    set (w1 := mkWorld (rng w) (<[queue := []]> (heap w))) in *.
    assert (heap w1 !! queue = Some []) as Hq1
      by (cbn [heap w1]; by apply list_lookup_insert_eq).
    destruct (steps_from_empty (Z.to_nat n - length q) w1 queue Hq1 ltac:(lia))
      as (c & results & queue' & q' & w' & Hsteps & Hq' & Hh' & Hlen' & Hlt').
    cbn [heap w1] in Hh'. rewrite length_insert in Hh'.
    assert ((n - Z.of_nat (length q) + 35) / 36 = Z.of_nat c) as ->.
    { symmetry. apply (Z.div_unique _ _ _ (35 - Z.of_nat (length q'))); lia. }
    exists (reverse q ++ results), queue', q', w'. split_and!; [|done|lia|lia].
    rewrite simulate_loop_steps.
    replace (Z.to_nat n) with (length q + (Z.to_nat n - length q))%nat by lia.
    by rewrite steps_add, Hdrain, Hsteps.
Qed.

(** *** Any number of rolls from a new queue *)

(** [k] whole cycles from a cycle boundary return every value [k] times
    its weight and end at a cycle boundary. *)
Lemma steps_cycles_count k : ∀ w queue q,
  heap w !! queue = Some q →
  q = [] ∨ q ≡ₚ expansion EXPECTED_DIST_2_12 →
  ∃ results queue' q' w',
    steps (Unary roll_balanced_dice) (k * 36) ([], [queue]) w =
      inr ((results, [queue']), w')
    ∧ heap w' !! queue' = Some q'
    ∧ (q' = [] ∨ q' ≡ₚ expansion EXPECTED_DIST_2_12)
    ∧ ∀ v, py_count v results = Z.of_nat k * weight v.
Proof.
  induction k as [|k IH]; intros w queue q Hq Hb.
  - by exists [], queue, q, w.
  - destruct (steps_cycle w queue q Hq Hb)
      as (results1 & queue1 & w1 & Hsteps1 & Hp1 & Hq1).
    destruct (IH w1 queue1 [] Hq1 (or_introl eq_refl))
      as (results2 & queue2 & q2 & w2 & Hsteps2 & Hq2 & Hb2 & Hcount2).
    exists (results1 ++ results2), queue2, q2, w2. split_and!; try done.
    + change (S k * 36)%nat with (36 + k * 36)%nat.
      by rewrite steps_add, Hsteps1, Hsteps2.
    + intros v.
      rewrite py_count_app, Hcount2, (py_count_perm _ _ _ Hp1), count_expansion.
      lia.
Qed.

(** Up to 36 rolls from a cycle boundary return part of one cycle. *)
Lemma steps_part_of_cycle (r : nat) w queue q :
  heap w !! queue = Some q →
  q = [] ∨ q ≡ₚ expansion EXPECTED_DIST_2_12 →
  (r ≤ 36)%nat →
  ∃ results args' w',
    steps (Unary roll_balanced_dice) r ([], [queue]) w =
      inr ((results, args'), w')
    ∧ results ⊆+ expansion EXPECTED_DIST_2_12.
Proof.
  intros Hq Hb Hr.
  destruct (steps_cycle w queue q Hq Hb)
    as (results & queue' & w' & Hsteps & Hp & _).
  replace 36%nat with (r + (36 - r))%nat in Hsteps by lia.
  rewrite steps_add in Hsteps.
  destruct (steps _ r _ w) as [|[[results1 args1] w1]]; [done|].
  destruct (steps _ (36 - r) _ w1) as [|[[results2 args2] w2]]; [done|].
  injection Hsteps as <- _ _.
  exists results1, args1, w1. split; [done|].
  rewrite <-Hp. by apply submseteq_inserts_r.
Qed.

(** After [create_balanced_queue], any number [n] of balanced rolls holds
    every value [v] at least [weight v] times the number of whole cycles
    in [n], and at most [weight v] times the number of cycles begun. *)
Theorem balanced_counts_bounds (n : Z) w :
  0 ≤ n →
  ∃ queue w1 results w2,
    create_balanced_queue EXPECTED_DIST_2_12 w = inr (queue, w1)
    ∧ simulate_rolls (Unary roll_balanced_dice) n [queue] w1 = inr (results, w2)
    ∧ ∀ v, weight v * (n / 36) ≤ py_count v results ≤ weight v * ((n + 35) / 36).
Proof.
  intros Hn.
  pose proof (create_balanced_queue_eq EXPECTED_DIST_2_12 w) as Hcreate.
  set (w1 := mkWorld _ _) in Hcreate. exists (length (heap w)), w1.
  assert (heap w1 !! length (heap w) =
            Some (shuffle (expansion EXPECTED_DIST_2_12) (rng w)).1) as Hq
    by (by apply list_lookup_middle).
  set (k := Z.to_nat (n / 36)). set (r := Z.to_nat (n mod 36)).
  pose proof (Z.div_mod n 36 ltac:(lia)) as Hdiv.
  pose proof (Z.mod_pos_bound n 36 ltac:(lia)) as Hmod.
  assert (0 ≤ n / 36) as Hk by (apply Z.div_pos; lia).
  destruct (steps_cycles_count k w1 _ _ Hq (or_intror (shuffle_perm _ _)))
    as (results1 & queue1 & q1 & w1' & Hsteps1 & Hq1 & Hb1 & Hcount1).
  destruct (steps_part_of_cycle r w1' queue1 q1 Hq1 Hb1 ltac:(lia))
    as (results2 & args2 & w2 & Hsteps2 & Hsub).
  exists (results1 ++ results2), w2. split; [done|]. split.
  { rewrite simulate_rolls_loop, simulate_loop_steps.
    replace (Z.to_nat n) with (k * 36 + r)%nat by lia.
    by rewrite steps_add, Hsteps1, Hsteps2. }
  intros v. rewrite py_count_app, Hcount1.
  pose proof (submseteq_count v _ _ Hsub) as Hle. rewrite count_expansion in Hle.
  pose proof (py_count_nonneg v results2) as Hge.
  pose proof (weight_nonneg v) as Hw.
  replace (Z.of_nat k) with (n / 36) by lia.
  destruct (decide (n mod 36 = 0)) as [Hz|Hnz].
  - assert (results2 = []) as ->.
    { assert (r = 0%nat) as Hr0 by lia. rewrite Hr0 in Hsteps2.
      cbn in Hsteps2. unfold ret in Hsteps2. by injection Hsteps2 as <- _ _. }
    replace ((n + 35) / 36) with (n / 36)
      by (apply (Z.div_unique _ _ _ 35); lia).
    unfold py_count. cbn. lia.
  - replace ((n + 35) / 36) with (n / 36 + 1)
      by (apply (Z.div_unique _ _ _ (n mod 36 - 1)); lia).
    nia.
Qed.

(** *** Queues for other tables *)

(** For any table, [create_balanced_queue] puts the queue in a new list
    object and leaves the others alone.  The queue is a permutation of the
    keys repeated by their counts, a count of zero or less adding nothing:
    its length is the sum of the counts, and a value occurs as often as
    the counts of its key say.  An empty table gives an empty queue. *)
Theorem create_balanced_queue_any_table (dist : list (Z * Z)) w :
  ∃ q w',
    create_balanced_queue dist w = inr (length (heap w), w')
    ∧ heap w' = heap w ++ [q]
    ∧ q ≡ₚ expansion dist
    ∧ length q = sum_list_with (λ kc, Z.to_nat kc.2) dist
    ∧ (∀ v, py_count v q =
            Z.of_nat (sum_list_with
                        (λ kc, if decide (kc.1 = v) then Z.to_nat kc.2 else 0%nat)
                        dist))
    ∧ (dist = [] → q = []).
Proof.
  eexists _, _. split; [apply create_balanced_queue_eq|]. cbn [heap].
  pose proof (shuffle_perm (expansion dist) (rng w)) as Hp.
  split_and!; try done.
  - rewrite (Permutation_length Hp). clear Hp.
    induction dist as [|[number count] dist IH]; [done|].
    rewrite expansion_cons, length_app, IH. unfold py_repeat.
    by rewrite length_replicate.
  - intros v. rewrite (py_count_perm _ _ _ Hp). clear Hp.
    induction dist as [|[number count] dist IH]; [done|].
    rewrite expansion_cons, py_count_app, IH, py_count_repeat.
    cbn [sum_list_with fst snd]. destruct (decide (number = v)); lia.
  - intros ->. apply Permutation_nil_r. by rewrite Hp.
Qed.

End CoreMore.

(** ** More on the frequency table *)

Lemma bar_counts_eq results :
  bar_counts results =
    [(2, py_count 2 results); (3, py_count 3 results); (4, py_count 4 results);
     (5, py_count 5 results); (6, py_count 6 results); (7, py_count 7 results);
     (8, py_count 8 results); (9, py_count 9 results); (10, py_count 10 results);
     (11, py_count 11 results); (12, py_count 12 results)].
Proof. reflexivity. Qed.

(** Every outcome in [results] is counted under exactly one key. *)
Lemma bar_counts_total results :
  py_sum (bar_counts results).*2 = Z.of_nat (length (filter is_outcome results)).
Proof.
  rewrite bar_counts_eq. cbn [fmap list_fmap snd py_sum foldr].
  induction results as [|r results IH]; [done|].
  rewrite !py_count_cons, filter_cons.
  destruct (decide (is_outcome r)) as [Hr|Hr]; unfold is_outcome in Hr.
  - cbn [length]. table_cases r; try lia;
      repeat (rewrite decide_False by lia || rewrite decide_True by lia); lia.
  - repeat (rewrite decide_False by lia). lia.
Qed.

Global Instance tuple_le_total : Total tuple_le.
Proof. intros [a1 a2] [b1 b2]. unfold tuple_le. cbn. lia. Qed.

Global Instance tuple_le_trans : Transitive tuple_le.
Proof. intros [a1 a2] [b1 b2] [c1 c2]. unfold tuple_le. cbn. lia. Qed.

Global Instance tuple_le_antisymm : AntiSymm (=) tuple_le.
Proof.
  intros [a1 a2] [b1 b2]. unfold tuple_le. cbn. intros ? ?. f_equal; lia.
Qed.

Lemma bar_counts_sorted results : Sorted tuple_le (bar_counts results).
Proof.
  rewrite bar_counts_eq.
  repeat (constructor; try (unfold tuple_le; cbn; lia)).
Qed.

Lemma bar_counts_keys results :
  (bar_counts results).*1 = [2; 3; 4; 5; 6; 7; 8; 9; 10; 11; 12].
Proof. reflexivity. Qed.

Lemma bar_counts_lookup results v :
  (list_to_map (bar_counts results) : gmap Z Z) !! v =
    if decide (is_outcome v) then Some (py_count v results) else None.
Proof.
  rewrite bar_counts_eq. cbn [list_to_map foldr fst snd uncurry].
  unfold is_outcome.
  table_cases v;
    try (rewrite decide_True by lia;
         repeat (rewrite lookup_insert_ne by lia); by rewrite lookup_insert_eq).
  rewrite decide_False by lia.
  rewrite !lookup_insert_ne by done. apply lookup_empty.
Qed.

Section AggregateMore.
Context {R : Type} `{RandomSource R}.

Implicit Types (app : @App R) (results : list Z).

(** The items of the table, sorted, are the bar heights. *)
Lemma sorted_items_frequencies results app (f : gmap Z Z) :
  calculate_frequencies results app = inr (f, app) →
  sorted_items f = bar_counts results.
Proof.
  intros Hf.
  destruct (calculate_frequencies_lookup results app) as (f' & Hf' & Hlookup).
  rewrite Hf in Hf'. injection Hf' as <-.
  assert (f = list_to_map (bar_counts results)) as ->.
  { apply map_eq. intros v. by rewrite Hlookup, bar_counts_lookup. }
  apply (Sorted_unique tuple_le).
  - apply Sorted_merge_sort, _.
  - apply bar_counts_sorted.
  - unfold sorted_items. rewrite merge_sort_Permutation.
    apply map_to_list_to_map. rewrite bar_counts_keys.
    repeat (constructor; [rewrite ?elem_of_cons, elem_of_nil; lia|]). constructor.
Qed.

(** The counts of the table add up to the number of values between 2 and
    12 in [results]: to the length of [results] when it holds outcomes
    only, as the results of a simulation do. *)
Theorem frequencies_total results app :
  ∃ f : gmap Z Z,
    calculate_frequencies results app = inr (f, app)
    ∧ py_sum (sorted_items f).*2 = Z.of_nat (length (filter is_outcome results))
    ∧ (Forall is_outcome results →
       py_sum (sorted_items f).*2 = Z.of_nat (length results)).
Proof.
  destruct (calculate_frequencies_lookup results app) as (f & Hf & _).
  exists f. split; [done|].
  rewrite (sorted_items_frequencies _ _ _ Hf), bar_counts_total.
  split; [done|]. intros Hall. do 2 f_equal.
  clear Hf. induction Hall as [|r results Hr _ IH]; [done|].
  by rewrite filter_cons_True, IH.
Qed.

(** The bars [plot_results] adds for [results] are the items of the
    table [calculate_frequencies] gives for them, in the order of the
    keys; the bars already on the axes stay. *)
Theorem chart_shows_the_table results (label : string) app :
  ∃ (f : gmap Z Z) app',
    calculate_frequencies results app = inr (f, app)
    ∧ plot_results results label app = inr ((), app')
    ∧ bars (ax (self app')) =
        bars (ax (self app)) ++ [mkBars label (sorted_items f)]
    ∧ world app' = world app.
Proof.
  destruct (calculate_frequencies_lookup results app) as (f & Hf & _).
  eexists f, _. split; [done|]. split; [reflexivity|].
  by rewrite (sorted_items_frequencies _ _ _ Hf).
Qed.

End AggregateMore.

(** ** More on the window *)

Lemma string_app_assoc (a b c : string) : (a +:+ b) +:+ c = a +:+ (b +:+ c).
Proof.
  induction a as [|x a IH]; [done|].
  change (String x ((a +:+ b) +:+ c) = String x (a +:+ (b +:+ c))).
  by rewrite IH.
Qed.

Lemma string_app_nil_r (a : string) : a +:+ "" = a.
Proof.
  induction a as [|x a IH]; [done|].
  change (String x (a +:+ "") = String x a). by rewrite IH.
Qed.

Section WindowMore.
Context {R : Type} `{RandomSource R}.

Implicit Types (app : @App R) (g : BalancedDiceGUI) (w : World R).

Lemma appends_insert chars : @appends R (text_insert_end chars) chars.
Proof.
  intros g w Hst. unfold text_insert_end, modify_self. cbn [self world].
  by rewrite Hst.
Qed.

Lemma appends_ret : @appends R (ret ()) "".
Proof.
  intros g w Hst. rewrite string_app_nil_r.
  destruct g as [? ? ? ? ? ? [st txt] ? ?]. cbn in Hst. by subst st.
Qed.

Lemma appends_bind m k s1 s2 :
  @appends R m s1 → appends k s2 → appends (bind m (λ _, k)) (s1 +:+ s2).
Proof.
  intros Hm Hk g w Hst. rewrite (bind_inr _ _ _ _ _ (Hm g w Hst)).
  rewrite Hk by done. by rewrite <-string_app_assoc.
Qed.

Lemma appends_for_in {A} (xs : list A) (body : A → () → M (@App R) ())
    (piece : A → string) :
  (∀ x u, appends (body x u) (piece x)) →
  appends (for_in xs body ()) (foldr (λ x rest, piece x +:+ rest) "" xs).
Proof.
  intros Hbody. induction xs as [|x xs IH]; [apply appends_ret|].
  cbn [for_in foldr]. intros g w Hst.
  rewrite (bind_inr _ _ _ _ _ (Hbody x () g w Hst)).
  rewrite IH by done. by rewrite <-string_app_assoc.
Qed.

Lemma appends_lines (items : list (Z * Z)) :
  @appends R
    (for_in items
       (λ '(number, frequency) (_ : ()),
          text_insert_end
            (" " +:+ py_str number +:+ ": " +:+ py_str frequency +:+ newline))
       ())
    (render_lines items).
Proof.
  replace (render_lines items) with
    (foldr (λ x rest,
              (" " +:+ py_str x.1 +:+ ": " +:+ py_str x.2 +:+ newline) +:+ rest)
           "" items)
    by (induction items as [|[??] ? IH]; [done|]; cbn; by rewrite IH).
  apply appends_for_in. intros [number frequency] _. apply appends_insert.
Qed.

Lemma appends_tables (d : list (string * gmap Z Z)) :
  @appends R
    (for_in d
       (λ '(dice_type, frequencies) (_ : ()),
          text_insert_end ("Frequencies for " +:+ dice_type +:+ ":" +:+ newline);;
          for_in (sorted_items frequencies)
            (λ '(number, frequency) (_ : ()),
               text_insert_end
                 (" " +:+ py_str number +:+ ": " +:+ py_str frequency +:+ newline))
            ();;
          text_insert_end newline)
       ())
    (render_frequencies d).
Proof.
  replace (render_frequencies d) with
    (foldr (λ x rest, render_table x.1 (sorted_items x.2) +:+ rest) "" d)
    by (induction d as [|[??] ? IH]; [done|]; cbn; by rewrite IH).
  apply appends_for_in. intros [dice_type frequencies] _.
  unfold render_table. cbn [fst snd].
  apply appends_bind; [apply appends_insert|].
  apply appends_bind; [apply appends_lines|apply appends_insert].
Qed.

Lemma display_frequencies_eq (d : list (string * gmap Z Z)) app :
  let kept :=
    if overlay_choice (self app) then text_content (text_freq (self app))
    else "" in
  display_frequencies d app =
    inr ((), mkApp (set_text_freq
                      (mkText DISABLED (kept +:+ render_frequencies d))
                      (self app))
                   (world app)).
Proof.
  destruct app as [g w]. cbn [self world]. unfold display_frequencies.
  erewrite bind_inr by reflexivity. erewrite bind_inr by reflexivity.
  cbn [self set_text_freq overlay_choice].
  set (g1 := set_text_freq _ g).
  assert (∃ g2, when (negb (overlay_choice g)) text_delete_all (mkApp g1 w)
                  = inr ((), mkApp g2 w)
                ∧ text_freq g2 = mkText NORMAL
                    (if overlay_choice g then text_content (text_freq g) else "")
                ∧ ∀ t, set_text_freq t g2 = set_text_freq t g)
    as (g2 & Hdel & Htxt & Hset).
  { destruct (overlay_choice g); eexists; (split; [reflexivity|]); by split. }
  rewrite (bind_inr _ _ _ _ _ Hdel).
  assert (text_state (text_freq g2) = NORMAL) as Hst by by rewrite Htxt.
  assert (when (bool_decide (d ≠ []))
            (for_in d
               (λ '(dice_type, frequencies) (_ : ()),
                  text_insert_end
                    ("Frequencies for " +:+ dice_type +:+ ":" +:+ newline);;
                  for_in (sorted_items frequencies)
                    (λ '(number, frequency) (_ : ()),
                       text_insert_end
                         (" " +:+ py_str number +:+ ": "
                          +:+ py_str frequency +:+ newline))
                    ();;
                  text_insert_end newline)
               ()) (mkApp g2 w)
          = inr ((), mkApp (set_text_freq
                              (mkText NORMAL (text_content (text_freq g2)
                                              +:+ render_frequencies d)) g2) w))
    as Hins.
  { case_bool_decide as Hd.
    - by apply appends_tables.
    - subst d. by apply appends_ret. }
  rewrite (bind_inr _ _ _ _ _ Hins).
  unfold text_config, modify_self. cbn [self world text_freq set_text_freq text_content].
  by rewrite Hset, Htxt.
Qed.

(** [display_frequencies] changes the text widget only.  It leaves it
    disabled, whatever it was.  With the overlay box checked the new
    tables are appended to the text; otherwise they replace it.  Each
    table is written as a heading, one line per key in the order of the
    keys, and an empty line. *)
Theorem display_frequencies_text (d : list (string * gmap Z Z)) app :
  let kept :=
    if overlay_choice (self app) then text_content (text_freq (self app))
    else "" in
  display_frequencies d app =
    inr ((), mkApp (set_text_freq
                      (mkText DISABLED (kept +:+ render_frequencies d))
                      (self app))
                   (world app)).
Proof. apply display_frequencies_eq. Qed.

(** A roll count that is missing, not a number, zero or negative: the
    button shows the error box and does nothing else; no roll is
    simulated and nothing is drawn. *)
Theorem start_simulation_invalid_input app :
  entry_rolls (self app) = None
  ∨ (∃ n, entry_rolls (self app) = Some n ∧ n ≤ 0) →
  start_simulation app =
    inr ((), mkApp (set_dialogs (dialogs (self app) ++ [invalid_input])
                                (self app))
                   (world app)).
Proof.
  intros Hentry. unfold start_simulation.
  erewrite bind_inr by reflexivity.
  destruct Hentry as [->|(n & -> & Hn)]; [done|].
  by rewrite bool_decide_eq_true_2.
Qed.

(** *** One press of the button *)

Ltac gui_simpl :=
  cbn [self world overlay_active entry_rolls dice_choice overlay_choice ax
       canvas text_freq plotted_dice dialogs set_overlay_active
       set_entry_rolls set_dice_choice set_overlay_choice set_ax set_canvas
       set_text_freq set_plotted_dice set_dialogs text_state text_content
       bars default id].

Ltac step := rewrite ?bind_assoc; erewrite bind_inr by reflexivity; gui_simpl.

Lemma render_one_table (label : string) results (f : gmap Z Z) app :
  calculate_frequencies results app = inr (f, app) →
  render_frequencies [(label, f)] = render_table label (bar_counts results).
Proof.
  intros Hf. cbn [render_frequencies foldr].
  by rewrite (sorted_items_frequencies _ _ _ Hf), string_app_nil_r.
Qed.

(** With the overlay box unchecked and no conflict pending, a press with
    the standard dice selected simulates [n] standard rolls and shows
    them alone, whatever was plotted before. *)
Lemma start_simulation_standard_eq app n :
  entry_rolls (self app) = Some n → 0 < n →
  overlay_active (self app) = false →
  overlay_choice (self app) = false →
  dice_choice (self app) = "Standard" →
  ∃ results w',
    simulate_rolls (Nullary roll_standard_dice) n [] (world app)
      = inr (results, w')
    ∧ start_simulation app =
        inr ((), mkApp (single_series_window n "Standard" "Standard dice"
                          results (dialogs (self app))) w').
Proof.
  intros Hn Hpos Hactive Hchoice Hdice.
  destruct app as [[active entry dice choice axes cv txt plotted dlg] w].
  cbn in Hn, Hactive, Hchoice, Hdice. subst active choice dice entry.
  cbn [world self dialogs].
  destruct (steps_standard (Z.to_nat n) w)
    as (results & w' & Hsteps & _ & _ & _).
  assert (simulate_rolls (Nullary roll_standard_dice) n [] w = inr (results, w'))
    as Hsim by (by rewrite simulate_rolls_loop, simulate_loop_steps, Hsteps).
  exists results, w'. split; [done|].
  unfold start_simulation. unfold bind at 1. cbn [get_self self entry_rolls].
  rewrite bool_decide_eq_false_2 by lia.
  do 3 step.
  rewrite (bool_decide_eq_false_2 (Some ∅ = None)) by done.
  step.
  rewrite (bool_decide_eq_true_2 ("Standard" = "Standard")) by done.
  step.
  rewrite (bool_decide_eq_true_2 ("Standard" ∉ (∅ : gset string)))
    by apply not_elem_of_empty.
  rewrite !bind_assoc.
  erewrite bind_inr by (apply in_world_inr; exact Hsim).
  rewrite !bind_assoc. gui_simpl.
  match goal with
  | |- context [bind (calculate_frequencies results) _ ?s] =>
      destruct (calculate_frequencies_lookup results s) as (f & Hf & _)
  end.
  rewrite (bind_inr _ _ _ _ _ Hf).
  do 4 step.
  change (dict_set "Standard dice" f []) with [("Standard dice", f)].
  rewrite (bind_inr _ _ _ _ _ (display_frequencies_eq _ _)). gui_simpl.
  rewrite (render_one_table _ _ _ _ Hf).
  reflexivity.
Qed.

Lemma simulate_balanced_total (n : Z) w :
  ∃ queue w1 results w',
    create_balanced_queue EXPECTED_DIST_2_12 w = inr (queue, w1)
    ∧ simulate_rolls (Unary roll_balanced_dice) n [queue] w1 = inr (results, w').
Proof.
  pose proof (create_balanced_queue_eq EXPECTED_DIST_2_12 w) as Hcreate.
  set (w1 := mkWorld _ _) in Hcreate.
  assert (heap w1 !! length (heap w) =
            Some (shuffle (expansion EXPECTED_DIST_2_12) (rng w)).1) as Hq
    by (by apply list_lookup_middle).
  destruct (steps_balanced (Z.to_nat n) w1 _ _ Hq)
    as (results & queue' & q' & w' & Hsteps & _).
  exists (length (heap w)), w1, results, w'. split; [done|].
  by rewrite simulate_rolls_loop, simulate_loop_steps, Hsteps.
Qed.

(** The same with the balanced dice selected: a new queue is built and
    [n] balanced rolls from it are shown. *)
Lemma start_simulation_balanced_eq app n :
  entry_rolls (self app) = Some n → 0 < n →
  overlay_active (self app) = false →
  overlay_choice (self app) = false →
  dice_choice (self app) = "Balanced" →
  ∃ queue w1 results w',
    create_balanced_queue EXPECTED_DIST_2_12 (world app) = inr (queue, w1)
    ∧ simulate_rolls (Unary roll_balanced_dice) n [queue] w1 = inr (results, w')
    ∧ start_simulation app =
        inr ((), mkApp (single_series_window n "Balanced" "Balanced dice"
                          results (dialogs (self app))) w').
Proof.
  intros Hn Hpos Hactive Hchoice Hdice.
  destruct app as [[active entry dice choice axes cv txt plotted dlg] w].
  cbn in Hn, Hactive, Hchoice, Hdice. subst active choice dice entry.
  cbn [world self dialogs].
  destruct (simulate_balanced_total n w) as (queue & w1 & results & w' & Hcreate & Hsim).
  exists queue, w1, results, w'. split; [done|]. split; [done|].
  unfold start_simulation. unfold bind at 1. cbn [get_self self entry_rolls].
  rewrite bool_decide_eq_false_2 by lia.
  do 3 step.
  rewrite (bool_decide_eq_false_2 (Some ∅ = None)) by done.
  step.
  rewrite (bool_decide_eq_false_2 ("Balanced" = "Standard")) by done.
  rewrite (bool_decide_eq_true_2 ("Balanced" = "Balanced")) by done.
  step.
  rewrite (bool_decide_eq_true_2 ("Balanced" ∉ (∅ : gset string)))
    by apply not_elem_of_empty.
  rewrite !bind_assoc.
  erewrite bind_inr by (apply in_world_inr; exact Hcreate).
  rewrite !bind_assoc.
  erewrite bind_inr by (apply in_world_inr; exact Hsim).
  rewrite !bind_assoc. gui_simpl.
  match goal with
  | |- context [bind (calculate_frequencies results) _ ?s] =>
      destruct (calculate_frequencies_lookup results s) as (f & Hf & _)
  end.
  rewrite (bind_inr _ _ _ _ _ Hf).
  do 4 step.
  change (dict_set "Balanced dice" f []) with [("Balanced dice", f)].
  rewrite (bind_inr _ _ _ _ _ (display_frequencies_eq _ _)). gui_simpl.
  rewrite (render_one_table _ _ _ _ Hf).
  reflexivity.
Qed.

(** With the standard dice plotted and selected, checking the overlay
    box and pressing again adds [n] balanced rolls from a new queue as a
    second series and sets the overlay flag; the standard rolls are not
    simulated again. *)
Lemma start_simulation_overlay_balanced_eq app n :
  entry_rolls (self app) = Some n → 0 < n →
  overlay_active (self app) = false →
  overlay_choice (self app) = true →
  dice_choice (self app) = "Standard" →
  plotted_dice (self app) = Some {["Standard"]} →
  ∃ queue w1 results w',
    create_balanced_queue EXPECTED_DIST_2_12 (world app) = inr (queue, w1)
    ∧ simulate_rolls (Unary roll_balanced_dice) n [queue] w1 = inr (results, w')
    ∧ start_simulation app =
        inr ((), mkApp (overlay_window (self app) "Balanced" "Balanced dice"
                          results) w').
Proof.
  intros Hn Hpos Hactive Hchoice Hdice Hplotted.
  destruct app as [[active entry dice choice axes cv txt plotted dlg] w].
  cbn in Hn, Hactive, Hchoice, Hdice, Hplotted. subst active choice dice entry plotted.
  cbn [world self dialogs].
  destruct (simulate_balanced_total n w) as (queue & w1 & results & w' & Hcreate & Hsim).
  exists queue, w1, results, w'. split; [done|]. split; [done|].
  unfold start_simulation. unfold bind at 1. cbn [get_self self entry_rolls].
  rewrite bool_decide_eq_false_2 by lia.
  do 3 step.
  rewrite (bool_decide_eq_false_2 (Some ({["Standard"]} : gset string) = None))
    by done.
  step.
  rewrite (bool_decide_eq_true_2 ("Standard" = "Standard")) by done.
  step.
  rewrite (bool_decide_eq_false_2 ("Standard" ∉ ({["Standard"]} : gset string)))
    by (intros Hnot; by apply Hnot, elem_of_singleton).
  step. step.
  rewrite (bool_decide_eq_true_2 ("Balanced" ∉ ({["Standard"]} : gset string)))
    by (by rewrite not_elem_of_singleton).
  rewrite !bind_assoc.
  erewrite bind_inr by (apply in_world_inr; exact Hcreate).
  rewrite !bind_assoc.
  erewrite bind_inr by (apply in_world_inr; exact Hsim).
  rewrite !bind_assoc. gui_simpl.
  match goal with
  | |- context [bind (calculate_frequencies results) _ ?s] =>
      destruct (calculate_frequencies_lookup results s) as (f & Hf & _)
  end.
  rewrite (bind_inr _ _ _ _ _ Hf).
  do 4 step.
  change (dict_set "Balanced dice" f []) with [("Balanced dice", f)].
  rewrite (bind_inr _ _ _ _ _ (display_frequencies_eq _ _)). gui_simpl.
  rewrite (render_one_table _ _ _ _ Hf).
  reflexivity.
Qed.

(** The other way round: with the balanced dice plotted and selected,
    the press adds [n] standard rolls as a second series. *)
Lemma start_simulation_overlay_standard_eq app n :
  entry_rolls (self app) = Some n → 0 < n →
  overlay_active (self app) = false →
  overlay_choice (self app) = true →
  dice_choice (self app) = "Balanced" →
  plotted_dice (self app) = Some {["Balanced"]} →
  ∃ results w',
    simulate_rolls (Nullary roll_standard_dice) n [] (world app)
      = inr (results, w')
    ∧ start_simulation app =
        inr ((), mkApp (overlay_window (self app) "Standard" "Standard dice"
                          results) w').
Proof.
  intros Hn Hpos Hactive Hchoice Hdice Hplotted.
  destruct app as [[active entry dice choice axes cv txt plotted dlg] w].
  cbn in Hn, Hactive, Hchoice, Hdice, Hplotted. subst active choice dice entry plotted.
  cbn [world self dialogs].
  destruct (steps_standard (Z.to_nat n) w)
    as (results & w' & Hsteps & _ & _ & _).
  assert (simulate_rolls (Nullary roll_standard_dice) n [] w = inr (results, w'))
    as Hsim by (by rewrite simulate_rolls_loop, simulate_loop_steps, Hsteps).
  exists results, w'. split; [done|].
  unfold start_simulation. unfold bind at 1. cbn [get_self self entry_rolls].
  rewrite bool_decide_eq_false_2 by lia.
  do 3 step.
  rewrite (bool_decide_eq_false_2 (Some ({["Balanced"]} : gset string) = None))
    by done.
  step.
  rewrite (bool_decide_eq_false_2 ("Balanced" = "Standard")) by done.
  rewrite (bool_decide_eq_true_2 ("Balanced" = "Balanced")) by done.
  step.
  rewrite (bool_decide_eq_false_2 ("Balanced" ∉ ({["Balanced"]} : gset string)))
    by (intros Hnot; by apply Hnot, elem_of_singleton).
  step. step.
  rewrite (bool_decide_eq_true_2 ("Standard" ∉ ({["Balanced"]} : gset string)))
    by (by rewrite not_elem_of_singleton).
  rewrite !bind_assoc.
  erewrite bind_inr by (apply in_world_inr; exact Hsim).
  rewrite !bind_assoc. gui_simpl.
  match goal with
  | |- context [bind (calculate_frequencies results) _ ?s] =>
      destruct (calculate_frequencies_lookup results s) as (f & Hf & _)
  end.
  rewrite (bind_inr _ _ _ _ _ Hf).
  do 4 step.
  change (dict_set "Standard dice" f []) with [("Standard dice", f)].
  rewrite (bind_inr _ _ _ _ _ (display_frequencies_eq _ _)). gui_simpl.
  rewrite (render_one_table _ _ _ _ Hf).
  reflexivity.
Qed.

Lemma steps_length (rf : @RollFunction R) n : ∀ args w results args' w',
  steps rf n ([], args) w = inr ((results, args'), w') → length results = n.
Proof.
  induction n as [|n IH]; intros args w results args' w'.
  - cbn. unfold ret. by intros [= <- _ _].
  - rewrite steps_S.
    destruct (call rf args w) as [|[[roll args1] w1]]; [done|].
    destruct (steps rf n ([], args1) w1) as [|[[results1 args2] w2]] eqn:Hn;
      [done|].
    intros [= <- _ _]. cbn. f_equal. by eapply IH.
Qed.

Lemma simulate_rolls_length (rf : @RollFunction R) (n : Z) args w results w' :
  simulate_rolls rf n args w = inr (results, w') →
  length results = Z.to_nat n.
Proof.
  rewrite simulate_rolls_loop, simulate_loop_steps.
  destruct (steps rf (Z.to_nat n) ([], args) w) as [|[[results1 args1] w1]] eqn:Hs;
    [done|].
  intros [= <- _]. by eapply steps_length.
Qed.

(** With the overlay box unchecked and no conflict pending, a press of
    the button discards whatever was plotted and shows one series of [n]
    rolls of the selected dice: standard rolls, or balanced rolls from a
    queue built for this press.  Chart and text show the same counts; the
    record of plotted dice holds the selected dice only; no box is shown;
    the canvas is redrawn. *)
Theorem start_simulation_single_series app n :
  entry_rolls (self app) = Some n → 0 < n →
  overlay_active (self app) = false →
  overlay_choice (self app) = false →
  (dice_choice (self app) = "Standard" →
   ∃ results w',
     simulate_rolls (Nullary roll_standard_dice) n [] (world app)
       = inr (results, w')
     ∧ Z.of_nat (length results) = n
     ∧ start_simulation app =
         inr ((), mkApp (single_series_window n "Standard" "Standard dice"
                           results (dialogs (self app))) w'))
  ∧ (dice_choice (self app) = "Balanced" →
     ∃ queue w1 results w',
       create_balanced_queue EXPECTED_DIST_2_12 (world app) = inr (queue, w1)
       ∧ simulate_rolls (Unary roll_balanced_dice) n [queue] w1
           = inr (results, w')
       ∧ Z.of_nat (length results) = n
       ∧ start_simulation app =
           inr ((), mkApp (single_series_window n "Balanced" "Balanced dice"
                             results (dialogs (self app))) w')).
Proof.
  intros Hn Hpos Hactive Hchoice. split; intros Hdice.
  - destruct (start_simulation_standard_eq app n Hn Hpos Hactive Hchoice Hdice)
      as (results & w' & Hsim & Hstart).
    exists results, w'. split_and!; try done.
    rewrite (simulate_rolls_length _ _ _ _ _ _ Hsim). lia.
  - destruct (start_simulation_balanced_eq app n Hn Hpos Hactive Hchoice Hdice)
      as (queue & w1 & results & w' & Hcreate & Hsim & Hstart).
    exists queue, w1, results, w'. split_and!; try done.
    rewrite (simulate_rolls_length _ _ _ _ _ _ Hsim). lia.
Qed.

(** With one series plotted, its dice still selected and the overlay box
    checked, a press adds [n] rolls of the other dice as a second series:
    the bars and the text of the first series stay, the first dice are
    not simulated again, both dice are recorded as plotted and the
    overlay flag is set. *)
Theorem start_simulation_adds_overlay app n :
  entry_rolls (self app) = Some n → 0 < n →
  overlay_active (self app) = false →
  overlay_choice (self app) = true →
  (dice_choice (self app) = "Standard" →
   plotted_dice (self app) = Some {["Standard"]} →
   ∃ queue w1 results w',
     create_balanced_queue EXPECTED_DIST_2_12 (world app) = inr (queue, w1)
     ∧ simulate_rolls (Unary roll_balanced_dice) n [queue] w1
         = inr (results, w')
     ∧ Z.of_nat (length results) = n
     ∧ start_simulation app =
         inr ((), mkApp (overlay_window (self app) "Balanced" "Balanced dice"
                           results) w'))
  ∧ (dice_choice (self app) = "Balanced" →
     plotted_dice (self app) = Some {["Balanced"]} →
     ∃ results w',
       simulate_rolls (Nullary roll_standard_dice) n [] (world app)
         = inr (results, w')
       ∧ Z.of_nat (length results) = n
       ∧ start_simulation app =
           inr ((), mkApp (overlay_window (self app) "Standard" "Standard dice"
                             results) w')).
Proof.
  intros Hn Hpos Hactive Hchoice. split; intros Hdice Hplotted.
  - destruct (start_simulation_overlay_balanced_eq app n Hn Hpos Hactive Hchoice
                Hdice Hplotted)
      as (queue & w1 & results & w' & Hcreate & Hsim & Hstart).
    exists queue, w1, results, w'. split_and!; try done.
    rewrite (simulate_rolls_length _ _ _ _ _ _ Hsim). lia.
  - destruct (start_simulation_overlay_standard_eq app n Hn Hpos Hactive Hchoice
                Hdice Hplotted)
      as (results & w' & Hsim & Hstart).
    exists results, w'. split_and!; try done.
    rewrite (simulate_rolls_length _ _ _ _ _ _ Hsim). lia.
Qed.

(** The clear button followed by a press of the start button, from any
    state of the window (two series plotted and the overlay flag set, for
    one): the clear box is shown and no other, and the window shows one
    series of [n] rolls of the selected dice, as a new window would. *)
Theorem clear_then_simulate app n :
  entry_rolls (self app) = Some n → 0 < n →
  (dice_choice (self app) = "Standard" →
   ∃ results w',
     simulate_rolls (Nullary roll_standard_dice) n [] (world app)
       = inr (results, w')
     ∧ (clear_graph;; start_simulation) app =
         inr ((), mkApp (single_series_window n "Standard" "Standard dice"
                           results (dialogs (self app) ++ [cleared_info])) w'))
  ∧ (dice_choice (self app) = "Balanced" →
     ∃ queue w1 results w',
       create_balanced_queue EXPECTED_DIST_2_12 (world app) = inr (queue, w1)
       ∧ simulate_rolls (Unary roll_balanced_dice) n [queue] w1
           = inr (results, w')
       ∧ (clear_graph;; start_simulation) app =
           inr ((), mkApp (single_series_window n "Balanced" "Balanced dice"
                             results (dialogs (self app) ++ [cleared_info])) w')).
Proof.
  intros Hn Hpos.
  destruct app as [[active entry dice choice axes cv txt plotted dlg] w].
  cbn in Hn. subst entry. cbn [self world dice_choice dialogs].
  set (app1 := mkApp (mkGUI false (Some n) dice false empty_axes empty_axes
                            (mkText DISABLED "") (Some ∅) (dlg ++ [cleared_info]))
                     w).
  assert (clear_graph
            (mkApp (mkGUI active (Some n) dice choice axes cv txt plotted dlg) w)
          = inr ((), app1)) as Hclear.
  { subst app1. by destruct txt as [[] ?]. }
  split; intros ->.
  - destruct (start_simulation_standard_eq app1 n) as (results & w' & Hsim & Hstart);
      try done.
    exists results, w'. split; [done|].
    by rewrite (bind_inr _ _ _ _ _ Hclear).
  - destruct (start_simulation_balanced_eq app1 n)
      as (queue & w1 & results & w' & Hcreate & Hsim & Hstart); try done.
    exists queue, w1, results, w'. split; [done|]. split; [done|].
    by rewrite (bind_inr _ _ _ _ _ Hclear).
Qed.

End WindowMore.

(** ** The script *)

Section ScriptProofs.
Context {R : Type} `{RandomSource R}.

Implicit Types (s : @Script R) (w : World R).

Lemma in_script_inr {A} (m : M (World R) A) s a w' :
  m (script_world s) = inr (a, w') →
  in_script m s = inr (a, mkScript (console s) (pyplot s) (show_closes s) w').
Proof. unfold in_script. by intros ->. Qed.

Ltac script_simpl := cbn [console pyplot show_closes script_world].

Ltac emit_step := rewrite ?bind_assoc; erewrite bind_inr by reflexivity;
                  script_simpl.

(** The loop of [visualise_results] adds one series per pair to the
    current figure, after the series already there. *)
Lemma bars_loop (pairs : list (list Z * string)) : ∀ s,
  for_in pairs
    (λ '(results, label) (_ : ()), plt_bar (mkBars label (bar_counts results)))
    () s =
  inr ((), mkScript (console s)
                    (mkFigure (fig_series (pyplot s) ++ series_of pairs)
                              (fig_title (pyplot s)) (fig_xlabel (pyplot s))
                              (fig_ylabel (pyplot s)) (fig_xticks (pyplot s))
                              (fig_legend (pyplot s)))
                    (show_closes s) (script_world s)).
Proof.
  induction pairs as [|[results label] pairs IH]; intros s.
  - cbn. unfold ret. rewrite app_nil_r. by destruct s as [? [] ? ?].
  - cbn [for_in]. erewrite bind_inr by reflexivity. rewrite IH.
    script_simpl. cbn [fig_series fig_title fig_xlabel fig_ylabel fig_xticks
                       fig_legend series_of fmap list_fmap].
    by rewrite <-app_assoc.
Qed.

(** One call of [visualise_results] draws its series on top of what the
    current figure holds, sets titles, ticks and legend, and shows the
    figure; the figure is gone afterwards or still current, as the
    backend has it. *)
Lemma visualise_results_eq first rest s :
  visualise_results first rest s =
    inr ((), mkScript
               (console s ++ [Show (drawn_on (pyplot s) (first :: rest))])
               (after_show (show_closes s) (drawn_on (pyplot s) (first :: rest)))
               (show_closes s) (script_world s)).
Proof.
  unfold visualise_results. rewrite (bind_inr _ _ _ _ _ (bars_loop _ s)).
  do 5 emit_step. reflexivity.
Qed.

(** Bad answers end the script before anything is simulated.  A first
    line that is no number, or a number that is zero or negative, gets one
    line with the error.  A second line that names no algorithm gets two
    lines of advice.  No figure is shown or drawn on, and the generator
    and the store are untouched. *)
Theorem main_rejects_bad_answers (algorithm overlay : string) s :
  (∀ error,
     main (inl error) algorithm overlay s =
       inr ((), mkScript (console s ++ banner ++ [Print ("Error: " +:+ error)])
                         (pyplot s) (show_closes s) (script_world s)))
  ∧ (∀ n, n ≤ 0 →
       main (inr n) algorithm overlay s =
         inr ((), mkScript
                    (console s ++ banner
                     ++ [Print "Error: Number of rolls must be positive."])
                    (pyplot s) (show_closes s) (script_world s)))
  ∧ (∀ n, 0 < n →
       algorithm ∉ ["s"; "standard"; "b"; "balanced"] →
       main (inr n) algorithm overlay s =
         inr ((), mkScript
                    (console s ++ banner
                     ++ [Prompt "Choose your algorithm: (S)tandard or (B)alanced? ";
                         Print "You have made an invalid choice.";
                         Print "Please choose (S)tandard or (B)alanced."])
                    (pyplot s) (show_closes s) (script_world s))).
Proof.
  split_and!.
  - intros error. unfold main. do 4 emit_step.
    unfold emit. script_simpl. by rewrite <-!app_assoc.
  - intros n Hn. unfold main. do 4 emit_step.
    rewrite bool_decide_eq_true_2 by done.
    unfold emit. script_simpl. by rewrite <-!app_assoc.
  - intros n Hn Halg. unfold main. do 4 emit_step.
    rewrite bool_decide_eq_false_2 by lia. emit_step.
    rewrite !bool_decide_eq_false_2
      by (intros Hin; apply Halg; revert Hin;
          rewrite !elem_of_cons, !elem_of_nil; tauto).
    emit_step. unfold emit. script_simpl. by rewrite <-!app_assoc.
Qed.

Lemma simulate_standard_total (n : Z) w :
  ∃ results w',
    simulate_rolls (Nullary roll_standard_dice) n [] w = inr (results, w')
    ∧ Forall is_outcome results.
Proof.
  destruct (steps_standard (Z.to_nat n) w) as (results & w' & Hsteps & _ & Hall & _).
  exists results, w'. split; [|done].
  by rewrite simulate_rolls_loop, simulate_loop_steps, Hsteps.
Qed.

(** The standard algorithm chosen: [n] standard rolls are simulated,
    drawn on the current figure and shown.  If the overlay is declined
    the script ends there.  If it is accepted, a queue is built, [n]
    balanced rolls are simulated, and the same standard rolls, not new
    ones, and the balanced rolls are drawn on the figure that is current
    then, which is shown.  With a backend whose [show] returns with the
    figure closed that second figure holds these two series and no other.
    With a backend whose [show] leaves the figure open it still holds
    the bars of the first call in front of them. *)
Theorem main_standard_first (n : Z) (algorithm overlay : string) s :
  0 < n →
  algorithm ∈ ["s"; "standard"] →
  ∃ standard_results w1,
    simulate_rolls (Nullary roll_standard_dice) n [] (script_world s)
      = inr (standard_results, w1)
    ∧ Z.of_nat (length standard_results) = n
    ∧ let first :=
        drawn_on (pyplot s) [(standard_results, "Standard dice distribution")] in
      let shown :=
        banner
        ++ [Prompt "Choose your algorithm: (S)tandard or (B)alanced? ";
            Show first;
            Prompt "Would you like to overlay with a balanced dice graph? (Y)es or (N)o: "]
      in
      (overlay ∉ ["y"; "yes"] →
       main (inr n) algorithm overlay s =
         inr ((), mkScript (console s ++ shown)
                           (after_show (show_closes s) first)
                           (show_closes s) w1))
      ∧ (overlay ∈ ["y"; "yes"] →
         ∃ queue w2 balanced_results w3,
           create_balanced_queue EXPECTED_DIST_2_12 w1 = inr (queue, w2)
           ∧ simulate_rolls (Unary roll_balanced_dice) n [queue] w2
               = inr (balanced_results, w3)
           ∧ Z.of_nat (length balanced_results) = n
           ∧ let second :=
               drawn_on (after_show (show_closes s) first)
                        [(standard_results, "Standard dice");
                         (balanced_results, "Balanced dice")] in
             main (inr n) algorithm overlay s =
               inr ((), mkScript (console s ++ shown ++ [Show second])
                                 (after_show (show_closes s) second)
                                 (show_closes s) w3)
             ∧ (show_closes s = true →
                fig_series second =
                  series_of [(standard_results, "Standard dice");
                             (balanced_results, "Balanced dice")])
             ∧ (show_closes s = false →
                fig_series second =
                  fig_series (pyplot s)
                  ++ series_of [(standard_results, "Standard dice distribution");
                                (standard_results, "Standard dice");
                                (balanced_results, "Balanced dice")])).
Proof.
  intros Hn Halg.
  destruct (simulate_standard_total n (script_world s))
    as (standard_results & w1 & Hstd & _).
  exists standard_results, w1. split; [done|]. split.
  { rewrite (simulate_rolls_length _ _ _ _ _ _ Hstd). lia. }
  cbn zeta. split.
  - intros Hno. unfold main. do 4 emit_step.
    rewrite bool_decide_eq_false_2 by lia. emit_step.
    rewrite bool_decide_eq_true_2 by done.
    rewrite ?bind_assoc. erewrite bind_inr by (apply in_script_inr; exact Hstd).
    script_simpl.
    rewrite ?bind_assoc, (bind_inr _ _ _ _ _ (visualise_results_eq _ _ _)).
    script_simpl. emit_step.
    rewrite bool_decide_eq_false_2 by done.
    unfold ret. by rewrite <-!app_assoc.
  - intros Hyes.
    destruct (simulate_balanced_total n w1)
      as (queue & w2 & balanced_results & w3 & Hcreate & Hbal).
    exists queue, w2, balanced_results, w3. split; [done|]. split; [done|]. split.
    { rewrite (simulate_rolls_length _ _ _ _ _ _ Hbal). lia. }
    split_and!.
    + unfold main. do 4 emit_step.
      rewrite bool_decide_eq_false_2 by lia. emit_step.
      rewrite bool_decide_eq_true_2 by done.
      rewrite ?bind_assoc. erewrite bind_inr by (apply in_script_inr; exact Hstd).
      script_simpl.
      rewrite ?bind_assoc, (bind_inr _ _ _ _ _ (visualise_results_eq _ _ _)).
      script_simpl. emit_step.
      rewrite bool_decide_eq_true_2 by done.
      rewrite ?bind_assoc. erewrite bind_inr by (apply in_script_inr; exact Hcreate).
      script_simpl.
      rewrite ?bind_assoc. erewrite bind_inr by (apply in_script_inr; exact Hbal).
      script_simpl. rewrite visualise_results_eq. script_simpl.
      by rewrite <-!app_assoc.
    + by intros ->.
    + intros ->. cbn. by rewrite <-app_assoc.
Qed.

(** The balanced algorithm chosen: a queue is built, [n] balanced rolls
    are simulated, drawn on the current figure and shown.  If the overlay
    is accepted, [n] standard rolls are simulated, and the same balanced
    rolls and the standard rolls are drawn on the figure that is current
    then, which is shown.  With a backend whose [show] returns with the
    figure closed that second figure holds these two series and no other.
    With a backend whose [show] leaves the figure open it still holds
    the bars of the first call in front of them. *)
Theorem main_balanced_first (n : Z) (algorithm overlay : string) s :
  0 < n →
  algorithm ∈ ["b"; "balanced"] →
  ∃ queue w1 balanced_results w2,
    create_balanced_queue EXPECTED_DIST_2_12 (script_world s) = inr (queue, w1)
    ∧ simulate_rolls (Unary roll_balanced_dice) n [queue] w1
        = inr (balanced_results, w2)
    ∧ Z.of_nat (length balanced_results) = n
    ∧ let first :=
        drawn_on (pyplot s) [(balanced_results, "Balanced dice distribution")] in
      let shown :=
        banner
        ++ [Prompt "Choose your algorithm: (S)tandard or (B)alanced? ";
            Show first;
            Prompt "Would you like to overlay with a standard dice graph? (Y)es or (N)o: "]
      in
      (overlay ∉ ["y"; "yes"] →
       main (inr n) algorithm overlay s =
         inr ((), mkScript (console s ++ shown)
                           (after_show (show_closes s) first)
                           (show_closes s) w2))
      ∧ (overlay ∈ ["y"; "yes"] →
         ∃ standard_results w3,
           simulate_rolls (Nullary roll_standard_dice) n [] w2
             = inr (standard_results, w3)
           ∧ Z.of_nat (length standard_results) = n
           ∧ let second :=
               drawn_on (after_show (show_closes s) first)
                        [(balanced_results, "Balanced dice");
                         (standard_results, "Standard dice")] in
             main (inr n) algorithm overlay s =
               inr ((), mkScript (console s ++ shown ++ [Show second])
                                 (after_show (show_closes s) second)
                                 (show_closes s) w3)
             ∧ (show_closes s = true →
                fig_series second =
                  series_of [(balanced_results, "Balanced dice");
                             (standard_results, "Standard dice")])
             ∧ (show_closes s = false →
                fig_series second =
                  fig_series (pyplot s)
                  ++ series_of [(balanced_results, "Balanced dice distribution");
                                (balanced_results, "Balanced dice");
                                (standard_results, "Standard dice")])).
Proof.
  intros Hn Halg.
  assert (algorithm ∉ ["s"; "standard"]) as Hnot.
  { revert Halg. rewrite !elem_of_cons, !elem_of_nil.
    intros [->|[->|[]]]; intros [?|[?|[]]]; done. }
  destruct (simulate_balanced_total n (script_world s))
    as (queue & w1 & balanced_results & w2 & Hcreate & Hbal).
  exists queue, w1, balanced_results, w2. split; [done|]. split; [done|]. split.
  { rewrite (simulate_rolls_length _ _ _ _ _ _ Hbal). lia. }
  cbn zeta. split.
  - intros Hno. unfold main. do 4 emit_step.
    rewrite bool_decide_eq_false_2 by lia. emit_step.
    rewrite (bool_decide_eq_false_2 _ Hnot), (bool_decide_eq_true_2 _ Halg).
    rewrite ?bind_assoc. erewrite bind_inr by (apply in_script_inr; exact Hcreate).
    script_simpl.
    rewrite ?bind_assoc. erewrite bind_inr by (apply in_script_inr; exact Hbal).
    script_simpl.
    rewrite ?bind_assoc, (bind_inr _ _ _ _ _ (visualise_results_eq _ _ _)).
    script_simpl. emit_step.
    rewrite bool_decide_eq_false_2 by done.
    unfold ret. by rewrite <-!app_assoc.
  - intros Hyes.
    destruct (simulate_standard_total n w2) as (standard_results & w3 & Hstd & _).
    exists standard_results, w3. split; [done|]. split.
    { rewrite (simulate_rolls_length _ _ _ _ _ _ Hstd). lia. }
    split_and!.
    + unfold main. do 4 emit_step.
      rewrite bool_decide_eq_false_2 by lia. emit_step.
      rewrite (bool_decide_eq_false_2 _ Hnot), (bool_decide_eq_true_2 _ Halg).
      rewrite ?bind_assoc. erewrite bind_inr by (apply in_script_inr; exact Hcreate).
      script_simpl.
      rewrite ?bind_assoc. erewrite bind_inr by (apply in_script_inr; exact Hbal).
      script_simpl.
      rewrite ?bind_assoc, (bind_inr _ _ _ _ _ (visualise_results_eq _ _ _)).
      script_simpl. emit_step.
      rewrite bool_decide_eq_true_2 by done.
      rewrite ?bind_assoc. erewrite bind_inr by (apply in_script_inr; exact Hstd).
      script_simpl. rewrite visualise_results_eq. script_simpl.
      by rewrite <-!app_assoc.
    + by intros ->.
    + intros ->. cbn. by rewrite <-app_assoc.
Qed.

End ScriptProofs.

(** ** More properties at concrete inputs *)

Lemma simulate_rolls_arity_mismatch_witness :
  1 ≤ 2
  ∧ simulate_rolls (Nullary roll_standard_dice) 2 [0%nat] short_queue_world
      = inl TypeError
  ∧ simulate_rolls (Unary roll_balanced_dice) 2 [] short_queue_world
      = inl TypeError
  ∧ simulate_rolls (Unary roll_balanced_dice) 2 [0%nat; 0%nat] short_queue_world
      = inl TypeError.
Proof.
  split; [lia|].
  apply (simulate_rolls_arity_mismatch 2 roll_standard_dice roll_balanced_dice
           0%nat 0%nat [] short_queue_world).
  lia.
Defined.

Lemma simulate_loop_add_witness :
  0 ≤ 1 ∧ 0 ≤ 2
  ∧ simulate_loop (Unary roll_balanced_dice) (1 + 2) [0%nat] short_queue_world
    = inr (([2] ++ [9; 7], [0%nat]), mkWorld demo_tape [[4]]).
Proof.
  split; [lia|]. split; [lia|].
  rewrite (simulate_loop_add (Unary roll_balanced_dice) 1 2 [0%nat]
             short_queue_world); [reflexivity|lia|lia].
Defined.


Lemma rebuild_count_witness :
  heap short_queue_world !! 0%nat = Some [4; 7; 9; 2]
  ∧ 0 ≤ 40
  ∧ ∃ results queue' q' w',
      simulate_loop (Unary roll_balanced_dice) 40 [0%nat] short_queue_world
        = inr ((results, [queue']), w')
      ∧ heap w' !! queue' = Some q'
      ∧ Z.of_nat (length (heap w')) = Z.of_nat (length (heap short_queue_world)) + 1
      ∧ 4 + 36 * 1 = 40 + Z.of_nat (length q').
Proof.
  split; [reflexivity|]. split; [lia|].
  apply (rebuild_count 40 short_queue_world 0%nat [4; 7; 9; 2]);
    [reflexivity|lia].
Defined.

Lemma balanced_counts_bounds_witness :
  0 ≤ 50
  ∧ ∃ queue w1 results w2,
      create_balanced_queue EXPECTED_DIST_2_12 demo_world = inr (queue, w1)
      ∧ simulate_rolls (Unary roll_balanced_dice) 50 [queue] w1
          = inr (results, w2)
      ∧ ∀ v, weight v * (50 / 36) ≤ py_count v results
             ≤ weight v * ((50 + 35) / 36).
Proof.
  split; [lia|]. apply (balanced_counts_bounds 50 demo_world). lia.
Defined.

Lemma start_simulation_invalid_input_witness :
  (entry_rolls (self fresh_window) = None
   ∨ ∃ n, entry_rolls (self fresh_window) = Some n ∧ n ≤ 0)
  ∧ start_simulation fresh_window =
      inr ((), mkApp (set_dialogs [invalid_input] init_gui) demo_world).
Proof.
  assert (entry_rolls (self fresh_window) = None
          ∨ ∃ n, entry_rolls (self fresh_window) = Some n ∧ n ≤ 0) as Hentry
    by (left; reflexivity).
  split; [exact Hentry|].
  exact (start_simulation_invalid_input fresh_window Hentry).
Defined.

Lemma start_simulation_single_series_witness :
  entry_rolls (self three_rolls_window) = Some 3 ∧ 0 < 3
  ∧ overlay_active (self three_rolls_window) = false
  ∧ overlay_choice (self three_rolls_window) = false
  ∧ dice_choice (self three_rolls_window) = "Standard"
  ∧ ∃ results w',
      simulate_rolls (Nullary roll_standard_dice) 3 [] (world three_rolls_window)
        = inr (results, w')
      ∧ Z.of_nat (length results) = 3
      ∧ start_simulation three_rolls_window =
          inr ((), mkApp (single_series_window 3 "Standard" "Standard dice"
                            results (dialogs (self three_rolls_window))) w').
Proof.
  split; [reflexivity|]. split; [lia|]. split; [reflexivity|].
  split; [reflexivity|]. split; [reflexivity|].
  apply (start_simulation_single_series three_rolls_window 3);
    [reflexivity|lia|reflexivity|reflexivity|reflexivity].
Defined.

Lemma start_simulation_adds_overlay_witness :
  entry_rolls (self one_series_window) = Some 3 ∧ 0 < 3
  ∧ overlay_active (self one_series_window) = false
  ∧ overlay_choice (self one_series_window) = true
  ∧ dice_choice (self one_series_window) = "Standard"
  ∧ plotted_dice (self one_series_window) = Some {["Standard"]}
  ∧ ∃ queue w1 results w',
      create_balanced_queue EXPECTED_DIST_2_12 (world one_series_window)
        = inr (queue, w1)
      ∧ simulate_rolls (Unary roll_balanced_dice) 3 [queue] w1
          = inr (results, w')
      ∧ Z.of_nat (length results) = 3
      ∧ start_simulation one_series_window =
          inr ((), mkApp (overlay_window (self one_series_window) "Balanced"
                            "Balanced dice" results) w').
Proof.
  split; [reflexivity|]. split; [lia|]. split; [reflexivity|].
  split; [reflexivity|]. split; [reflexivity|]. split; [reflexivity|].
  apply (start_simulation_adds_overlay one_series_window 3);
    [reflexivity|lia|reflexivity|reflexivity|reflexivity|reflexivity].
Defined.

Lemma clear_then_simulate_witness :
  entry_rolls (self two_series_window) = Some 3 ∧ 0 < 3
  ∧ dice_choice (self two_series_window) = "Standard"
  ∧ ∃ results w',
      simulate_rolls (Nullary roll_standard_dice) 3 [] (world two_series_window)
        = inr (results, w')
      ∧ (clear_graph;; start_simulation) two_series_window =
          inr ((), mkApp (single_series_window 3 "Standard" "Standard dice"
                            results
                            (dialogs (self two_series_window) ++ [cleared_info]))
                         w').
Proof.
  split; [reflexivity|]. split; [lia|]. split; [reflexivity|].
  apply (clear_then_simulate two_series_window 3);
    [reflexivity|lia|reflexivity].
Defined.


Lemma main_standard_first_witness :
  0 < 3 ∧ "s" ∈ ["s"; "standard"]
  ∧ (∃ s', main (inr 3) "s" "y" new_script = inr ((), s')
           ∧ last (console s') =
               Some (Show (drawn_on empty_figure
                             [([6; 7; 10], "Standard dice");
                              ([3; 4; 5], "Balanced dice")]))
           ∧ pyplot s' = empty_figure)
  ∧ (∃ s', main (inr 3) "s" "y" new_script_agg = inr ((), s')
           ∧ last (console s') =
               Some (Show (drawn_on empty_figure
                             [([6; 7; 10], "Standard dice distribution");
                              ([6; 7; 10], "Standard dice");
                              ([3; 4; 5], "Balanced dice")]))
           ∧ fig_series (pyplot s') =
               series_of [([6; 7; 10], "Standard dice distribution");
                          ([6; 7; 10], "Standard dice");
                          ([3; 4; 5], "Balanced dice")]).
Proof.
  assert ("s" ∈ ["s"; "standard"]) as Hs by (apply elem_of_cons; by left).
  assert ("y" ∈ ["y"; "yes"]) as Hy by (apply elem_of_cons; by left).
  split; [lia|]. split; [exact Hs|]. split.
  - destruct (main_standard_first 3 "s" "y" new_script)
      as (standard_results & w1 & Hstd & _ & _ & Hyes); [lia|exact Hs|].
    destruct (Hyes Hy)
      as (queue & w2 & balanced_results & w3 & Hcreate & Hbal & _ & Hmain & _).
    vm_compute in Hstd. injection Hstd as <- <-.
    vm_compute in Hcreate. injection Hcreate as <- <-.
    vm_compute in Hbal. injection Hbal as <- <-.
    eexists. split; [exact Hmain|]. split; vm_compute; reflexivity.
  - destruct (main_standard_first 3 "s" "y" new_script_agg)
      as (standard_results & w1 & Hstd & _ & _ & Hyes); [lia|exact Hs|].
    destruct (Hyes Hy)
      as (queue & w2 & balanced_results & w3 & Hcreate & Hbal & _ & Hmain & _).
    vm_compute in Hstd. injection Hstd as <- <-.
    vm_compute in Hcreate. injection Hcreate as <- <-.
    vm_compute in Hbal. injection Hbal as <- <-.
    eexists. split; [exact Hmain|]. split; vm_compute; reflexivity.
Defined.

Lemma main_balanced_first_witness :
  0 < 3 ∧ "b" ∈ ["b"; "balanced"]
  ∧ (∃ s', main (inr 3) "b" "y" new_script = inr ((), s')
           ∧ last (console s') =
               Some (Show (drawn_on empty_figure
                             [([4; 3; 4], "Balanced dice");
                              ([8; 6; 4], "Standard dice")]))
           ∧ pyplot s' = empty_figure)
  ∧ (∃ s', main (inr 3) "b" "y" new_script_agg = inr ((), s')
           ∧ last (console s') =
               Some (Show (drawn_on empty_figure
                             [([4; 3; 4], "Balanced dice distribution");
                              ([4; 3; 4], "Balanced dice");
                              ([8; 6; 4], "Standard dice")]))
           ∧ fig_series (pyplot s') =
               series_of [([4; 3; 4], "Balanced dice distribution");
                          ([4; 3; 4], "Balanced dice");
                          ([8; 6; 4], "Standard dice")]).
Proof.
  assert ("b" ∈ ["b"; "balanced"]) as Hb by (apply elem_of_cons; by left).
  assert ("y" ∈ ["y"; "yes"]) as Hy by (apply elem_of_cons; by left).
  split; [lia|]. split; [exact Hb|]. split.
  - destruct (main_balanced_first 3 "b" "y" new_script)
      as (queue & w1 & balanced_results & w2 & Hcreate & Hbal & _ & _ & Hyes);
      [lia|exact Hb|].
    destruct (Hyes Hy) as (standard_results & w3 & Hstd & _ & Hmain & _).
    vm_compute in Hcreate. injection Hcreate as <- <-.
    vm_compute in Hbal. injection Hbal as <- <-.
    vm_compute in Hstd. injection Hstd as <- <-.
    eexists. split; [exact Hmain|]. split; vm_compute; reflexivity.
  - destruct (main_balanced_first 3 "b" "y" new_script_agg)
      as (queue & w1 & balanced_results & w2 & Hcreate & Hbal & _ & _ & Hyes);
      [lia|exact Hb|].
    destruct (Hyes Hy) as (standard_results & w3 & Hstd & _ & Hmain & _).
    vm_compute in Hcreate. injection Hcreate as <- <-.
    vm_compute in Hbal. injection Hbal as <- <-.
    vm_compute in Hstd. injection Hstd as <- <-.
    eexists. split; [exact Hmain|]. split; vm_compute; reflexivity.
Defined.

(** The script on the tape generator, standard dice first and the overlay
    accepted, once with each kind of backend. *)
Example script_on_tape :
  main (inr 3) "s" "yes" new_script =
    inr ((), mkScript
               (banner
                ++ [Prompt "Choose your algorithm: (S)tandard or (B)alanced? ";
                    Show (drawn_on empty_figure
                            [([6; 7; 10], "Standard dice distribution")]);
                    Prompt "Would you like to overlay with a balanced dice graph? (Y)es or (N)o: ";
                    Show (drawn_on empty_figure
                            [([6; 7; 10], "Standard dice");
                             ([3; 4; 5], "Balanced dice")])])
               empty_figure true
               (mkWorld [6; 9; 3; 9; 9; 3; 7; 5; 1]%nat
                        [[6; 7; 6; 6; 7; 7; 3; 6; 6; 2; 10; 9; 9; 7; 7; 8; 7;
                          8; 8; 8; 8; 11; 4; 10; 9; 12; 10; 9; 5; 5; 5; 11; 4]])).
Proof. vm_compute. reflexivity. Qed.

Example script_on_tape_agg :
  ∃ s, main (inr 3) "s" "yes" new_script_agg = inr ((), s)
       ∧ last (console s) =
           Some (Show (drawn_on empty_figure
                         [([6; 7; 10], "Standard dice distribution");
                          ([6; 7; 10], "Standard dice");
                          ([3; 4; 5], "Balanced dice")])).
Proof. eexists. split; vm_compute; reflexivity. Qed.
